(** * GoVector: the vector-clock logger [govec.GoLog]

  A shallow embedding of [govec/govec.go] and the properties of its
  three logging calls (local event, prepare-send, unpack-receive), of
  its wire envelope [ClockPayload] and of its buffered log output.

  Layout:
  - [Msgpack]: the calls of the msgpack encoder and decoder that
    [ClockPayload.EncodeMsgpack] and [ClockPayload.DecodeMsgpack] make,
    over byte lists;
  - [vclock]: the vector clock the logger owns;
  - the logger itself, function by function, with the file system, the
    console and the wall clock as an explicit [World];
  - the theorems. *)

From Stdlib.Strings Require Import Byte.
From stdpp Require Import gmap strings list fin_maps sorting pretty.
From Stdlib Require Import NArith ZArith Lia.

Set Default Proof Using "Type".

(** Go's [error] values are carried by their message. *)
Definition error : Type := string.

(** A Go call returning [(T, error)] where the value is only used when the
  error is nil. *)
Inductive result (A : Type) : Type :=
| Ok (a : A)
| Err (e : error).
Arguments Ok {A} a.
Arguments Err {A} e.

(** ** The msgpack primitives used by the envelope codec

    [github.com/vmihailenco/msgpack] is a dependency of the repository, not
    part of it.  The encoder and decoder calls that [govec.go] makes are
    given here over byte lists, after the MessagePack wire format: the
    formats the encoder emits for strings, unsigned integers, map and
    array lengths, nil and booleans.  A decoder call on exhausted input
    fails with [io.EOF]. *)

Module Msgpack.

(** The byte with value [n mod 256] (Go's [byte(n)] conversion). *)
Definition byte_of_N (n : N) : byte :=
  default "000"%byte (Byte.of_N (n mod 256)).

(** [k] bytes, big-endian, of [n] (higher bytes are dropped, as Go's
    [uint16(n)], [uint32(n)] conversions do). *)
Fixpoint be_bytes (k : nat) (n : N) : list byte :=
  match k with
  | O => []
  | S k' => byte_of_N (n / 256 ^ N.of_nat k') :: be_bytes k' n
  end.

Definition be_value (bs : list byte) : N :=
  fold_left (λ acc b, acc * 256 + Byte.to_N b)%N bs 0%N.

(** Format codes of the wire format. *)
Definition FixedMapLow : N := 128.   (* 0x80 *)
Definition FixedArrayLow : N := 144. (* 0x90 *)
Definition FixedStrLow : N := 160.   (* 0xa0 *)
Definition Nil : N := 192.           (* 0xc0 *)
Definition False' : N := 194.        (* 0xc2 *)
Definition True' : N := 195.         (* 0xc3 *)
Definition Uint8 : N := 204.         (* 0xcc *)
Definition Uint16 : N := 205.        (* 0xcd *)
Definition Uint32 : N := 206.        (* 0xce *)
Definition Uint64 : N := 207.        (* 0xcf *)
Definition Str8 : N := 217.          (* 0xd9 *)
Definition Str16 : N := 218.         (* 0xda *)
Definition Str32 : N := 219.         (* 0xdb *)
Definition Array16 : N := 220.       (* 0xdc *)
Definition Array32 : N := 221.       (* 0xdd *)
Definition Map16 : N := 222.         (* 0xde *)
Definition Map32 : N := 223.         (* 0xdf *)

Definition EOF : error := "EOF".
Definition ErrUnexpectedEOF : error := "unexpected EOF".

(** *** Encoder side: the bytes each call appends to the buffer *)

Definition encodeStrLen (l : N) : list byte :=
  if (l <? 32)%N then [byte_of_N (FixedStrLow + l)]
  else if (l <? 256)%N then byte_of_N Str8 :: be_bytes 1 l
  else if (l <? 65536)%N then byte_of_N Str16 :: be_bytes 2 l
  else byte_of_N Str32 :: be_bytes 4 l.

Definition EncodeString (s : string) : list byte :=
  let bs := String.list_byte_of_string s in
  encodeStrLen (N.of_nat (length bs)) ++ bs.

Definition EncodeUint (n : N) : list byte :=
  if (n <? 128)%N then [byte_of_N n]
  else if (n <? 256)%N then byte_of_N Uint8 :: be_bytes 1 n
  else if (n <? 65536)%N then byte_of_N Uint16 :: be_bytes 2 n
  else if (n <? 4294967296)%N then byte_of_N Uint32 :: be_bytes 4 n
  else byte_of_N Uint64 :: be_bytes 8 n.

Definition EncodeMapLen (l : N) : list byte :=
  if (l <? 16)%N then [byte_of_N (FixedMapLow + l)]
  else if (l <? 65536)%N then byte_of_N Map16 :: be_bytes 2 l
  else byte_of_N Map32 :: be_bytes 4 l.

Definition EncodeArrayLen (l : N) : list byte :=
  if (l <? 16)%N then [byte_of_N (FixedArrayLow + l)]
  else if (l <? 65536)%N then byte_of_N Array16 :: be_bytes 2 l
  else byte_of_N Array32 :: be_bytes 4 l.

(** *** Decoder side: a decoder is the unread rest of its input *)

Definition readCode (r : list byte) : result (N * list byte) :=
  match r with
  | [] => Err EOF
  | c :: r' => Ok (Byte.to_N c, r')
  end.

Definition readN (n : nat) (r : list byte) : result (list byte * list byte) :=
  if decide (n ≤ length r) then Ok (take n r, drop n r)
  else Err ErrUnexpectedEOF.

Definition read_uint (k : nat) (r : list byte) : result (N * list byte) :=
  match readN k r with
  | Ok (bs, r') => Ok (be_value bs, r')
  | Err e => Err e
  end.

Definition invalid_code (what : string) (c : N) : error :=
  "msgpack: invalid code=" +:+ pretty c +:+ " decoding " +:+ what.

(** The length announced by a string header with code [c]. *)
Definition bytesLen (c : N) (r : list byte) : result (N * list byte) :=
  if (FixedStrLow <=? c)%N && (c <? Nil)%N then Ok ((c - FixedStrLow)%N, r)
  else if (c =? Str8)%N then read_uint 1 r
  else if (c =? Str16)%N then read_uint 2 r
  else if (c =? Str32)%N then read_uint 4 r
  else Err (invalid_code "bytes length" c).

Definition decode_string (c : N) (r : list byte) : result (string * list byte) :=
  match bytesLen c r with
  | Err e => Err e
  | Ok (n, r) =>
      match readN (N.to_nat n) r with
      | Err e => Err e
      | Ok (b, r) => Ok (String.string_of_list_byte b, r)
      end
  end.

Definition DecodeString (r : list byte) : result (string * list byte) :=
  match readCode r with
  | Err e => Err e
  | Ok (c, r) => decode_string c r
  end.

Definition decode_uint (c : N) (r : list byte) : result (N * list byte) :=
  if (c <? 128)%N then Ok (c, r)
  else if (c =? Uint8)%N then read_uint 1 r
  else if (c =? Uint16)%N then read_uint 2 r
  else if (c =? Uint32)%N then read_uint 4 r
  else if (c =? Uint64)%N then read_uint 8 r
  else Err (invalid_code "uint64" c).

Definition DecodeUint64 (r : list byte) : result (N * list byte) :=
  match readCode r with
  | Err e => Err e
  | Ok (c, r) => decode_uint c r
  end.

Definition DecodeMapLen (r : list byte) : result (N * list byte) :=
  match readCode r with
  | Err e => Err e
  | Ok (c, r) =>
      if (FixedMapLow <=? c)%N && (c <? FixedArrayLow)%N
      then Ok ((c - FixedMapLow)%N, r)
      else if (c =? Map16)%N then read_uint 2 r
      else if (c =? Map32)%N then read_uint 4 r
      else Err (invalid_code "map length" c)
  end.

Definition decode_array_len (c : N) (r : list byte) : result (N * list byte) :=
  if (FixedArrayLow <=? c)%N && (c <? FixedStrLow)%N
  then Ok ((c - FixedArrayLow)%N, r)
  else if (c =? Array16)%N then read_uint 2 r
  else if (c =? Array32)%N then read_uint 4 r
  else Err (invalid_code "array length" c).

End Msgpack.

(** ** The application payload

    The source carries the payload as [interface{}] and lets the codec
    inspect it at run time.  Here it is a tagged value: the shapes the
    codec writes, and [PChan] for a Go value the codec has no encoding for
    (a channel or a function). *)

Local Unset Elimination Schemes.
Inductive payload : Type :=
| PNil
| PBool (b : bool)
| PUint (n : N)
| PStr (s : string)
| PArr (vs : list payload)
| PChan.
Local Set Elimination Schemes.

Module Codec.
Import Msgpack.

Definition unsupported : error := "msgpack: Encode(unsupported chan)".

(** The elements of an array, one after the other; the first failure stops
    the writing and keeps what was written so far. *)
Fixpoint encode_elems (ev : payload → list byte * option error)
    (vs : list payload) : list byte * option error :=
  match vs with
  | [] => ([], None)
  | v :: vs' =>
      match ev v with
      | (b, Some e) => (b, Some e)
      | (b, None) => let '(b', e) := encode_elems ev vs' in (b ++ b', e)
      end
  end.

(** [enc.Encode(v)]: the bytes written and the error, if any. *)
Fixpoint Encode (v : payload) : list byte * option error :=
  match v with
  | PNil => ([byte_of_N Nil], None)
  | PBool b => ([byte_of_N (if b then True' else False')], None)
  | PUint n => (EncodeUint n, None)
  | PStr s => (EncodeString s, None)
  | PArr vs =>
      let '(b, e) := encode_elems Encode vs in
      (EncodeArrayLen (N.of_nat (length vs)) ++ b, e)
  | PChan => ([], Some unsupported)
  end.

Definition is_uint_code (c : N) : bool :=
  (c <? 128)%N || ((Uint8 <=? c)%N && (c <=? Uint64)%N).
Definition is_str_code (c : N) : bool :=
  ((FixedStrLow <=? c)%N && (c <? Nil)%N) || ((Str8 <=? c)%N && (c <=? Str32)%N).
Definition is_array_code (c : N) : bool :=
  ((FixedArrayLow <=? c)%N && (c <? FixedStrLow)%N)
  || (c =? Array16)%N || (c =? Array32)%N.

Fixpoint decode_elems (dv : list byte → result (payload * list byte))
    (k : nat) (r : list byte) : result (list payload * list byte) :=
  match k with
  | O => Ok ([], r)
  | S k' =>
      match dv r with
      | Err e => Err e
      | Ok (v, r) =>
          match decode_elems dv k' r with
          | Err e => Err e
          | Ok (vs, r) => Ok (v :: vs, r)
          end
      end
  end.

(** One value off the input.  [fuel] bounds the nesting depth; every
    nesting level consumes its header byte, so any fuel above the length of
    the input gives the same result ([decode_value_fuel]). *)
Fixpoint decode_value (fuel : nat) (r : list byte) : result (payload * list byte) :=
  match fuel with
  | O => Err ErrUnexpectedEOF
  | S fuel' =>
      match readCode r with
      | Err e => Err e
      | Ok (c, r) =>
          if (c =? Nil)%N then Ok (PNil, r)
          else if (c =? False')%N then Ok (PBool false, r)
          else if (c =? True')%N then Ok (PBool true, r)
          else if is_uint_code c then
            match decode_uint c r with
            | Err e => Err e
            | Ok (n, r) => Ok (PUint n, r)
            end
          else if is_str_code c then
            match decode_string c r with
            | Err e => Err e
            | Ok (s, r) => Ok (PStr s, r)
            end
          else if is_array_code c then
            match decode_array_len c r with
            | Err e => Err e
            | Ok (n, r) =>
                match decode_elems (decode_value fuel') (N.to_nat n) r with
                | Err e => Err e
                | Ok (vs, r) => Ok (PArr vs, r)
                end
            end
          else Err (invalid_code "interface{}" c)
      end
  end.

(** [dec.Decode(&v)] for a payload target. *)
Definition Decode (r : list byte) : result (payload * list byte) :=
  decode_value (S (length r)) r.

(** The nesting depth of a payload: the fuel [decode_value] needs for it. *)
Fixpoint need (v : payload) : nat :=
  match v with
  | PArr vs => S (foldr (λ v n, need v `max` n) 0 vs)
  | _ => 1
  end.

(** The payloads the codec can write and read back: no channel anywhere,
    and every number and length within its wire field. *)
Fixpoint supported (v : payload) : bool :=
  match v with
  | PNil | PBool _ => true
  | PUint n => (n <? 2 ^ 64)%N
  | PStr s => (N.of_nat (String.length s) <? 2 ^ 32)%N
  | PArr vs => (N.of_nat (length vs) <? 2 ^ 32)%N && forallb supported vs
  | PChan => false
  end.

End Codec.

(** ** The vector clock (package [govec/vclock])

    Modelled from the spec: the repository's [vclock] package is not among
    the sources; [New], [Tick], [Merge], [FindTicks], [GetMap] and
    [ReturnVCString] follow the contract of the VectorClock component
    (counters are [uint64], so an increment wraps at [2^64]). *)

Module vclock.

Definition uint64 (n : N) : N := (n mod 2 ^ 64)%N.

Abbreviation VClock := (gmap string N).

(** Modelled from the spec: a fresh clock has no entry. *)
Definition New : VClock := ∅.

(** Modelled from the spec: [Tick(pid)] increments [counters[pid]] by 1,
    creating the entry at 1 if absent. *)
Definition Tick (vc : VClock) (pid : string) : VClock :=
  <[pid := uint64 (default 0%N (vc !! pid) + 1)]> vc.

(** Modelled from the spec: [Merge(other)] sets, for every key [k] of
    [other], [counters[k]] to the maximum of [counters[k]] (default 0) and
    [other[k]]; keys only in the local clock are untouched. *)
Definition Merge (vc other : VClock) : VClock :=
  map_fold (λ k v acc, <[k := N.max (default 0%N (acc !! k)) v]> acc) vc other.

(** Modelled from the spec: [FindTicks(pid)] returns the counter of [pid]
    and whether it is present. *)
Definition FindTicks (vc : VClock) (pid : string) : N * bool :=
  match vc !! pid with
  | Some n => (n, true)
  | None => (0%N, false)
  end.

(** Modelled from the spec: the exported map is a copy of the counters. *)
Definition GetMap (vc : VClock) : gmap string N := vc.

Definition render_entry (kv : string * N) : string :=
  kv.1 +:+ ":" +:+ pretty kv.2.

Definition key_le (a b : string * N) : Prop := String.leb a.1 b.1 = true.

#[global] Instance key_le_dec a b : Decision (key_le a b).
Proof. unfold key_le. apply _. Defined.

(** Modelled from the spec: a deterministic rendering, [pid:count] entries
    sorted by pid. *)
Definition ReturnVCString (vc : VClock) : string :=
  "{" +:+ String.concat ", " (render_entry <$> merge_sort key_le (map_to_list vc))
      +:+ "}".

End vclock.

(** ** Priorities *)

Definition LogPriority : Type := Z.

Definition DEBUG : LogPriority := 0%Z.
Definition INFO : LogPriority := 1%Z.
Definition WARNING : LogPriority := 2%Z.
Definition ERROR : LogPriority := 3%Z.
Definition FATAL : LogPriority := 4%Z.

(** The colours of package [ct] that the logger uses. *)
Inductive Color : Type :=
| ct_None | ct_Green | ct_White | ct_Yellow | ct_Red | ct_Magenta.

Definition getColor (l : LogPriority) : Color :=
  match l with
  | 0 => ct_Green
  | 1 => ct_White
  | 2 => ct_Yellow
  | 3 => ct_Red
  | 4 => ct_Magenta
  | _ => ct_None
  end%Z.

Definition getPrefixString (l : LogPriority) : string :=
  match l with
  | 0 => "DEBUG"
  | 1 => "NORMAL"
  | 2 => "WARNING"
  | 3 => "ERROR"
  | 4 => "FATAL"
  | _ => EmptyString
  end%Z.

(** ** The wire envelope *)

Record ClockPayload : Type := mkClockPayload {
  Pid : string;
  VcMap : gmap string N;
  Payload : payload
}.

Definition set_Pid (s : string) (d : ClockPayload) : ClockPayload :=
  mkClockPayload s (VcMap d) (Payload d).
Definition set_VcMap (m : gmap string N) (d : ClockPayload) : ClockPayload :=
  mkClockPayload (Pid d) m (Payload d).
Definition set_Payload (p : payload) (d : ClockPayload) : ClockPayload :=
  mkClockPayload (Pid d) (VcMap d) p.

(** The two pluggable strategies.  An encoder hands back bytes and an
    error; a decoder fills the envelope it is given and hands back an
    error. *)
Definition Encoder : Type := ClockPayload → list byte * option error.
Definition Decoder : Type := list byte → ClockPayload → ClockPayload * option error.

Module Wire.
Import Msgpack Codec.

(** The [for key, value := range d.VcMap] loop of [EncodeMsgpack], over the
    entries in the order the range visits them. *)
Fixpoint encode_entries (kvs : list (string * N)) : list byte :=
  match kvs with
  | [] => []
  | (key, value) :: kvs' => EncodeString key ++ EncodeUint value ++ encode_entries kvs'
  end.

(** [ClockPayload.EncodeMsgpack], given the order [kvs] in which the range
    loop visits the clock map.  The encoder writes to a memory buffer, so
    [EncodeString], [EncodeMapLen] and [EncodeUint] cannot fail; only
    [enc.Encode(d.Payload)] can.  The result is what has been written and
    the error. *)
Definition EncodeMsgpack_range (kvs : list (string * N)) (d : ClockPayload)
    : list byte * option error :=
  let b1 := EncodeString (Pid d) in
  match Encode (Payload d) with
  | (b2, Some err) => (b1 ++ b2, Some err)
  | (b2, None) =>
      let b3 := EncodeMapLen (N.of_nat (size (VcMap d))) in
      (b1 ++ b2 ++ b3 ++ encode_entries kvs, None)
  end.

(** Go leaves the order of a map range unspecified; [map_to_list] is one
    such order.  [DecodeMsgpack_any_range] below shows that the choice does
    not show on the decoding side. *)
Definition EncodeMsgpack (d : ClockPayload) : list byte * option error :=
  EncodeMsgpack_range (map_to_list (VcMap d)) d.

(** The [for i := 0; i < mapLen; i++] loop of [DecodeMsgpack]:
    [vcMap[key] = value] for each entry read. *)
Fixpoint decode_entries (mapLen : nat) (vcMap : gmap string N) (dec : list byte)
    : result (gmap string N * list byte) :=
  match mapLen with
  | O => Ok (vcMap, dec)
  | S i =>
      match DecodeString dec with
      | Err err => Err err
      | Ok (key, dec) =>
          match DecodeUint64 dec with
          | Err err => Err err
          | Ok (value, dec) => decode_entries i (<[key := value]> vcMap) dec
          end
      end
  end.

(** [dec.Decode(&d.Pid, &d.Payload, &d.VcMap)]: the three targets are
    decoded in turn and the first error ends the call.  The string target
    is assigned the call's result even when it failed (the empty string). *)
Definition Decode_fields (d : ClockPayload) (dec : list byte)
    : ClockPayload * list byte * option error :=
  match DecodeString dec with
  | Err err => (set_Pid EmptyString d, dec, Some err)
  | Ok (pid, dec) =>
      let d := set_Pid pid d in
      match Decode dec with
      | Err err => (d, dec, Some err)
      | Ok (p, dec) =>
          let d := set_Payload p d in
          match DecodeMapLen dec with
          | Err err => (d, dec, Some err)
          | Ok (n, dec) =>
              match decode_entries (N.to_nat n) ∅ dec with
              | Err err => (d, dec, Some err)
              | Ok (m, dec) => (set_VcMap m d, dec, None)
              end
          end
      end
  end.

(** [ClockPayload.DecodeMsgpack]: the envelope as the call leaves it, the
    unread input and the error returned. *)
Definition DecodeMsgpack (d : ClockPayload) (dec : list byte)
    : ClockPayload * list byte * option error :=
  match DecodeString dec with
  | Err err => (d, dec, Some err)
  | Ok (pid, dec) =>
      let d := set_Pid pid d in
      match Decode dec with
      | Err err => (d, dec, Some err)
      | Ok (p, dec) =>
          let d := set_Payload p d in
          match DecodeMapLen dec with
          | Err err => (d, dec, Some err)
          | Ok (mapLen, dec) =>
              match decode_entries (N.to_nat mapLen) ∅ dec with
              | Err err => (d, dec, Some err)
              | Ok (vcMap, dec) =>
                  let '(d, dec, err) := Decode_fields d dec in
                  let d := set_VcMap vcMap d in
                  (d, dec, err)
              end
          end
      end
  end.

(** An envelope whose every field fits the wire format: the payload is
    supported, the strings and the map are shorter than [2^32] and the
    counters are [uint64]. *)
Definition entry_ok (kv : string * N) : Prop :=
  (N.of_nat (String.length kv.1) < 2 ^ 32)%N ∧ (kv.2 < 2 ^ 64)%N.

Definition wire_ok (d : ClockPayload) : Prop :=
  (N.of_nat (String.length (Pid d)) < 2 ^ 32)%N
  ∧ supported (Payload d) = true
  ∧ (N.of_nat (size (VcMap d)) < 2 ^ 32)%N
  ∧ map_Forall (λ k v, entry_ok (k, v)) (VcMap d).

(** [msgpack.Marshal(&d)]: the buffer and the error of the encoder. *)
Definition Marshal : Encoder := EncodeMsgpack.

(** [msgpack.Unmarshal(buf, &e)]: a decoder over [buf], run once. *)
Definition Unmarshal : Decoder := λ buf e,
  let '(e, _, err) := DecodeMsgpack e buf in (e, err).

End Wire.

(** ** The world outside the logger

    The log files, the console and the wall clock.  A file operation can
    fail for reasons the logger does not control (permissions, a full
    disk); the [can_*] flags say which ones succeed.  The wall clock is
    read as one instant per call. *)

Inductive ConsoleEvent : Type :=
| ct_Foreground (c : Color) (bright : bool)
| ct_ResetColor
| fmt_Print (s : string).

Record World : Type := mkWorld {
  files : gmap string string;
  can_remove : bool;
  can_mkdir : bool;
  can_create : bool;
  can_open : bool;
  can_write : bool;
  unixnano : Z;
  unixdate : string;
  stdout : list ConsoleEvent
}.

Definition set_files (f : gmap string string) (w : World) : World :=
  mkWorld f (can_remove w) (can_mkdir w) (can_create w) (can_open w)
    (can_write w) (unixnano w) (unixdate w) (stdout w).

Definition console (evs : list ConsoleEvent) (w : World) : World :=
  mkWorld (files w) (can_remove w) (can_mkdir w) (can_create w) (can_open w)
    (can_write w) (unixnano w) (unixdate w) (stdout w ++ evs).

(** [os.Stat(name)]: whether the error is nil. *)
Definition os_Stat (name : string) (w : World) : bool :=
  bool_decide (is_Some (files w !! name)).

(** [os.Remove(name)]; the logger ignores its error. *)
Definition os_Remove (name : string) (w : World) : World :=
  if can_remove w then set_files (delete name (files w)) w else w.

(** [os.MkdirAll(filepath.Dir(name), 0750)]: directories are not part of
    the model, only the error is. *)
Definition os_MkdirAll (name : string) (w : World) : option error :=
  if can_mkdir w then None else Some ("mkdir " +:+ name +:+ ": permission denied").

(** [os.Create(name)]: the file handle (nil on failure), the error and the
    world, where the file now exists and is empty. *)
Definition os_Create (name : string) (w : World) : option string * option error * World :=
  if can_create w then (Some name, None, set_files (<[name := EmptyString]> (files w)) w)
  else (None, Some ("open " +:+ name +:+ ": permission denied"), w).

(** [os.OpenFile(name, os.O_APPEND|os.O_WRONLY, 0600)]: no [O_CREATE], so
    the file has to exist. *)
Definition os_OpenFile_append (name : string) (w : World) : option string * option error :=
  if can_open w && bool_decide (is_Some (files w !! name)) then (Some name, None)
  else (None, Some ("open " +:+ name +:+ ": no such file or permission denied")).

(** [file.WriteString(s)] on a file opened for appending; on the nil
    handle it fails with [os.ErrInvalid]. *)
Definition file_WriteString (file : option string) (s : string) (w : World)
    : option error * World :=
  match file with
  | None => (Some "invalid argument", w)
  | Some name =>
      if can_write w then (None, set_files (alter (λ c, c +:+ s) name (files w)) w)
      else (Some ("write " +:+ name +:+ ": input/output error"), w)
  end.

Definition newline : string := String (Ascii.ascii_of_nat 10) EmptyString.

(** ** The logger *)

Record GoLogConfig : Type := mkGoLogConfig {
  Buffered : bool;
  PrintOnScreen : bool;
  AppendLog : bool;
  UseTimestamps : bool;
  EncodingStrategy : option Encoder;
  DecodingStrategy : option Decoder;
  LogToFile : bool;
  Priority : LogPriority
}.

Definition GetDefaultConfig : GoLogConfig :=
  {| Buffered := false; PrintOnScreen := false; AppendLog := false;
     UseTimestamps := false; EncodingStrategy := None; DecodingStrategy := None;
     LogToFile := true; Priority := INFO |}.

(** [logger] holds the lines printed on the diagnostic [*log.Logger]
    ([logToTerminal] is false and never assigned, so they go to a buffer of
    the logger's own); [mutex] is true while the lock is held. *)
Record GoLog : Type := mkGoLog {
  pid : string;
  currentVC : vclock.VClock;
  printonscreen : bool;
  logging : bool;
  buffered : bool;
  usetimestamps : bool;
  appendLog : bool;
  priority : LogPriority;
  logfile : string;
  output : string;
  encodingStrategy : Encoder;
  decodingStrategy : Decoder;
  logger : list string;
  mutex : bool
}.

Definition set_currentVC (vc : vclock.VClock) (gv : GoLog) : GoLog :=
  mkGoLog (pid gv) vc (printonscreen gv) (logging gv) (buffered gv)
    (usetimestamps gv) (appendLog gv) (priority gv) (logfile gv) (output gv)
    (encodingStrategy gv) (decodingStrategy gv) (logger gv) (mutex gv).

Definition set_buffered (b : bool) (gv : GoLog) : GoLog :=
  mkGoLog (pid gv) (currentVC gv) (printonscreen gv) (logging gv) b
    (usetimestamps gv) (appendLog gv) (priority gv) (logfile gv) (output gv)
    (encodingStrategy gv) (decodingStrategy gv) (logger gv) (mutex gv).

Definition set_output (s : string) (gv : GoLog) : GoLog :=
  mkGoLog (pid gv) (currentVC gv) (printonscreen gv) (logging gv) (buffered gv)
    (usetimestamps gv) (appendLog gv) (priority gv) (logfile gv) s
    (encodingStrategy gv) (decodingStrategy gv) (logger gv) (mutex gv).

Definition set_mutex (b : bool) (gv : GoLog) : GoLog :=
  mkGoLog (pid gv) (currentVC gv) (printonscreen gv) (logging gv) (buffered gv)
    (usetimestamps gv) (appendLog gv) (priority gv) (logfile gv) (output gv)
    (encodingStrategy gv) (decodingStrategy gv) (logger gv) b.

(** [gv.logger.Println(line)]. *)
Definition logger_Println (line : string) (gv : GoLog) : GoLog :=
  mkGoLog (pid gv) (currentVC gv) (printonscreen gv) (logging gv) (buffered gv)
    (usetimestamps gv) (appendLog gv) (priority gv) (logfile gv) (output gv)
    (encodingStrategy gv) (decodingStrategy gv) (logger gv ++ [line]) (mutex gv).

Definition setEncoderDecoder (encoder : Encoder) (decoder : Decoder) (gv : GoLog) : GoLog :=
  mkGoLog (pid gv) (currentVC gv) (printonscreen gv) (logging gv) (buffered gv)
    (usetimestamps gv) (appendLog gv) (priority gv) (logfile gv) (output gv)
    encoder decoder (logger gv) (mutex gv).

Definition DefaultEncoder : Encoder := Wire.Marshal.
Definition DefaultDecoder : Decoder := Wire.Unmarshal.

Definition GetCurrentVC (gv : GoLog) : vclock.VClock := currentVC gv.

Definition EnableBufferedWrites (gv : GoLog) : GoLog := set_buffered true gv.

Definition Flush (gv : GoLog) (w : World) : bool * GoLog * World :=
  let complete := true in
  let '(file, err) := os_OpenFile_append (logfile gv) w in
  let complete := if err is Some _ then false else complete in
  let '(err, w) := file_WriteString file (output gv) w in
  let complete := if err is Some _ then false else complete in
  let gv := set_output EmptyString gv in
  (complete, gv, w).

Definition DisableBufferedWrites (gv : GoLog) (w : World) : GoLog * World :=
  let gv := set_buffered false gv in
  if bool_decide (output gv ≠ EmptyString) then
    let '(_, gv, w) := Flush gv w in (gv, w)
  else (gv, w).

Definition printColoredMessage (LogMessage : string) (Priority : LogPriority)
    (w : World) : World :=
  let color := getColor Priority in
  let prefix := getPrefixString Priority in
  console [ct_Foreground color true;
           fmt_Print (unixdate w +:+ ":" +:+ prefix +:+ "-");
           ct_ResetColor;
           fmt_Print (LogMessage +:+ newline)] w.

Definition logThis (Message ProcessID VCString : string) (Priority : LogPriority)
    (gv : GoLog) (w : World) : bool * GoLog * World :=
  let complete := true in
  let buffer := EmptyString in
  let buffer :=
    if usetimestamps gv then buffer +:+ pretty (unixnano w) +:+ " " else buffer in
  let buffer := buffer +:+ ProcessID in
  let buffer := buffer +:+ " " in
  let buffer := buffer +:+ VCString in
  let buffer := buffer +:+ newline in
  let buffer := buffer +:+ Message in
  let buffer := buffer +:+ newline in
  let gv := set_output (output gv +:+ buffer) gv in
  let '(complete, gv, w) :=
    if negb (buffered gv) then Flush gv w else (complete, gv, w) in
  let w := if printonscreen gv then printColoredMessage Message Priority w else w in
  (complete, gv, w).

Definition logWriteWrapper (logMessage errorMessage : string) (Priority : LogPriority)
    (gv : GoLog) (w : World) : bool * GoLog * World :=
  let success := false in
  if logging gv then
    let '(success, gv, w) :=
      logThis logMessage (pid gv) (vclock.ReturnVCString (currentVC gv)) Priority gv w in
    let gv := if negb success then logger_Println errorMessage gv else gv in
    (success, gv, w)
  else (success, gv, w).

Definition tickClock (gv : GoLog) : GoLog :=
  let '(_, found) := vclock.FindTicks (currentVC gv) (pid gv) in
  let gv :=
    if negb found
    then logger_Println "Couldn't find this process's id in its own vector clock!" gv
    else gv in
  set_currentVC (vclock.Tick (currentVC gv) (pid gv)) gv.

(** *** The three logging calls

    [gv.mutex.Lock()] on a held lock does not return: nothing else in the
    package releases it.  A call therefore either returns, with its result
    and the logger and world it leaves, or blocks. *)

Inductive outcome (A : Type) : Type :=
| Returns (a : A) (gv : GoLog) (w : World)
| Blocks.
Arguments Returns {A} a gv w.
Arguments Blocks {A}.

Definition mutex_Lock (gv : GoLog) : option GoLog :=
  if mutex gv then None else Some (set_mutex true gv).

Definition mutex_Unlock (gv : GoLog) : GoLog := set_mutex false gv.

Definition LogLocalEventWithPriority (LogMessage : string) (Priority : LogPriority)
    (gv : GoLog) (w : World) : outcome bool :=
  let logSuccess := true in
  match mutex_Lock gv with
  | None => Blocks
  | Some gv =>
      let '(logSuccess, gv, w) :=
        if (Priority >=? priority gv)%Z then
          let prefix := getPrefixString Priority +:+ " - " in
          let gv := tickClock gv in
          logWriteWrapper (prefix +:+ LogMessage)
            "Something went Wrong, Could not Log LocalEvent!" Priority gv w
        else (logSuccess, gv, w) in
      let gv := mutex_Unlock gv in
      Returns logSuccess gv w
  end.

Definition LogLocalEvent (Message : string) (gv : GoLog) (w : World) : outcome bool :=
  LogLocalEventWithPriority Message (priority gv) gv w.

Definition PrepareSendWithPriority (mesg : string) (buf : payload)
    (Priority : LogPriority) (gv : GoLog) (w : World) : outcome (list byte) :=
  let encodedBytes := [] in
  match mutex_Lock gv with
  | None => Blocks
  | Some gv =>
      if (Priority >=? priority gv)%Z then
        let gv := tickClock gv in
        let '(_, gv, w) :=
          logWriteWrapper mesg "Something went wrong, could not log prepare send"
            Priority gv w in
        let d := {| Pid := pid gv; VcMap := vclock.GetMap (currentVC gv); Payload := buf |} in
        let '(encodedBytes, err) := encodingStrategy gv d in
        let gv := if err is Some e then logger_Println e gv else gv in
        let gv := mutex_Unlock gv in
        Returns encodedBytes gv w
      else Returns encodedBytes gv w
  end.

Definition PrepareSend (mesg : string) (buf : payload) (gv : GoLog) (w : World)
    : outcome (list byte) :=
  PrepareSendWithPriority mesg buf (priority gv) gv w.

Definition mergeIncomingClock (mesg : string) (e : ClockPayload) (Priority : LogPriority)
    (gv : GoLog) (w : World) : GoLog * World :=
  let gv := tickClock gv in
  let gv := set_currentVC (vclock.Merge (currentVC gv) (VcMap e)) gv in
  let '(_, gv, w) :=
    logWriteWrapper mesg "Something went Wrong, Could not Log!" Priority gv w in
  (gv, w).

(** [unpack] is the value behind the caller's pointer before the call; the
    result is the value behind it afterwards. *)
Definition UnpackReceiveWithPriority (mesg : string) (buf : list byte) (unpack : payload)
    (Priority : LogPriority) (gv : GoLog) (w : World) : outcome payload :=
  match mutex_Lock gv with
  | None => Blocks
  | Some gv =>
      if (Priority >=? priority gv)%Z then
        let e := {| Pid := EmptyString; VcMap := ∅; Payload := unpack |} in
        let '(e, err) := decodingStrategy gv buf e in
        let gv := if err is Some msg then logger_Println msg gv else gv in
        let '(gv, w) := mergeIncomingClock mesg e Priority gv w in
        let gv := mutex_Unlock gv in
        Returns (Payload e) gv w
      else Returns unpack gv w
  end.

Definition UnpackReceive (mesg : string) (buf : list byte) (unpack : payload)
    (gv : GoLog) (w : World) : outcome payload :=
  UnpackReceiveWithPriority mesg buf unpack (priority gv) gv w.

(** *** Initialization *)

Definition execution_banner (gv : GoLog) (w : World) : bool * GoLog * World :=
  let executionnumber := unixdate w in
  let gv := logger_Println ("Execution Number is   " +:+ executionnumber) gv in
  let executionstring := "=== Execution #" +:+ executionnumber +:+ "  ===" in
  logThis executionstring EmptyString EmptyString (priority gv) gv w.

(** The part of [prepareLogFile] after the check for an existing log. *)
Definition createLogFile (gv : GoLog) (w : World) : GoLog * World :=
  let gv := if os_MkdirAll (logfile gv) w is Some err then logger_Println err gv else gv in
  let '(file, err, w) := os_Create (logfile gv) w in
  let gv := if err is Some err then logger_Println err gv else gv in
  let '(gv, w) :=
    if appendLog gv then let '(_, gv, w) := execution_banner gv w in (gv, w)
    else (gv, w) in
  let '(ok, gv, w) :=
    logThis "Initialization Complete" (pid gv)
      (vclock.ReturnVCString (currentVC gv)) (priority gv) gv w in
  let gv := if negb ok then logger_Println "Something went Wrong, Could not Log!" gv else gv in
  (gv, w).

Definition prepareLogFile (gv : GoLog) (w : World) : GoLog * World :=
  if os_Stat (logfile gv) w then
    if negb (appendLog gv) then
      let gv := logger_Println (logfile gv +:+ " exists! ... Deleting ") gv in
      let w := os_Remove (logfile gv) w in
      createLogFile gv w
    else
      let '(_, gv, w) := execution_banner gv w in (gv, w)
  else createLogFile gv w.

Definition InitGoVector (processid logfilename : string) (config : GoLogConfig)
    (w : World) : GoLog * World :=
  let '(encoder, decoder) :=
    match EncodingStrategy config, DecodingStrategy config with
    | Some enc, Some dec => (enc, dec)
    | _, _ => (DefaultEncoder, DefaultDecoder)
    end in
  let vc1 := vclock.New in
  let vc1 := vclock.Tick vc1 processid in
  let logname := logfilename +:+ "-Log.txt" in
  let gv :=
    {| pid := processid;
       currentVC := vc1;
       printonscreen := PrintOnScreen config;
       logging := LogToFile config;
       buffered := Buffered config;
       usetimestamps := UseTimestamps config;
       appendLog := AppendLog config;
       priority := Priority config;
       logfile := logname;
       output := EmptyString;
       encodingStrategy := encoder;
       decodingStrategy := decoder;
       logger := [];
       mutex := false |} in
  prepareLogFile gv w.

(** *** Calls as data

    The three logging calls under one type, to speak of any of them. *)

Inductive LogCall : Type :=
| CallLocalEvent (LogMessage : string) (Priority : LogPriority)
| CallSend (mesg : string) (buf : payload) (Priority : LogPriority)
| CallReceive (mesg : string) (buf : list byte) (unpack : payload) (Priority : LogPriority).

Inductive CallResult : Type :=
| RLogged (logSuccess : bool)
| RBytes (encodedBytes : list byte)
| RUnpacked (p : payload).

Definition call_priority (c : LogCall) : LogPriority :=
  match c with
  | CallLocalEvent _ P | CallSend _ _ P | CallReceive _ _ _ P => P
  end.

Definition lift_outcome {A} (f : A → CallResult) (o : outcome A) : outcome CallResult :=
  match o with
  | Returns a gv w => Returns (f a) gv w
  | Blocks => Blocks
  end.

Definition run_call (c : LogCall) (gv : GoLog) (w : World) : outcome CallResult :=
  match c with
  | CallLocalEvent m P => lift_outcome RLogged (LogLocalEventWithPriority m P gv w)
  | CallSend m b P => lift_outcome RBytes (PrepareSendWithPriority m b P gv w)
  | CallReceive m b u P => lift_outcome RUnpacked (UnpackReceiveWithPriority m b u P gv w)
  end.

(** The loggers a host application can hold: made by [InitGoVector] and
    then only touched through the exported methods. *)
Inductive Reachable : GoLog → Prop :=
| Reachable_init processid logfilename config w :
    Reachable (InitGoVector processid logfilename config w).1
| Reachable_call c gv w r gv' w' :
    Reachable gv → run_call c gv w = Returns r gv' w' → Reachable gv'
| Reachable_enable gv :
    Reachable gv → Reachable (EnableBufferedWrites gv)
| Reachable_disable gv w :
    Reachable gv → Reachable (DisableBufferedWrites gv w).1
| Reachable_flush gv w :
    Reachable gv → Reachable (Flush gv w).1.2.

(** *** Vocabulary of the statements *)

(** What a logging call may change besides the clock: nothing but the
    pending output and the diagnostic lines. *)
Definition same_settings (gv gv' : GoLog) : Prop :=
  pid gv' = pid gv ∧ printonscreen gv' = printonscreen gv
  ∧ logging gv' = logging gv ∧ buffered gv' = buffered gv
  ∧ usetimestamps gv' = usetimestamps gv ∧ appendLog gv' = appendLog gv
  ∧ priority gv' = priority gv ∧ logfile gv' = logfile gv
  ∧ encodingStrategy gv' = encodingStrategy gv
  ∧ decodingStrategy gv' = decodingStrategy gv.

(** The invariant of the pending-output buffer. *)
Definition buffer_inv (gv : GoLog) : Prop :=
  buffered gv = false → output gv = EmptyString.

(** The envelope [UnpackReceiveWithPriority] hands to the decoder. *)
Definition blank_envelope (unpack : payload) : ClockPayload :=
  {| Pid := EmptyString; VcMap := ∅; Payload := unpack |}.

(** The envelope [PrepareSendWithPriority] hands to the encoder. *)
Definition outgoing_envelope (gv : GoLog) (buf : payload) : ClockPayload :=
  {| Pid := pid gv;
     VcMap := vclock.GetMap (vclock.Tick (currentVC gv) (pid gv));
     Payload := buf |}.

(** *** Concrete loggers and worlds for the scenarios *)

(** A world with no log file yet in which every file operation succeeds. *)
Definition world0 : World :=
  mkWorld ∅ true true true true true 0 "Sat Oct 31 00:00:00 UTC 2026" [].

(** The same world with a disk that takes no more writes. *)
Definition full_disk (w : World) : World :=
  mkWorld (files w) (can_remove w) (can_mkdir w) (can_create w) (can_open w)
    false (unixnano w) (unixdate w) (stdout w).

Definition config_with (buffered : bool) (threshold : LogPriority) : GoLogConfig :=
  {| Buffered := buffered; PrintOnScreen := false; AppendLog := false;
     UseTimestamps := false; EncodingStrategy := None; DecodingStrategy := None;
     LogToFile := true; Priority := threshold |}.

Definition logger_P1 : GoLog := (InitGoVector "P1" "p1" GetDefaultConfig world0).1.
Definition world_P1 : World := (InitGoVector "P1" "p1" GetDefaultConfig world0).2.
Definition logger_P2 : GoLog := (InitGoVector "P2" "p2" GetDefaultConfig world0).1.
Definition world_P2 : World := (InitGoVector "P2" "p2" GetDefaultConfig world0).2.
Definition logger_P1_ERROR : GoLog :=
  (InitGoVector "P1" "p1" (config_with false ERROR) world0).1.
Definition logger_P1_buffered : GoLog :=
  (InitGoVector "P1" "p1" (config_with true INFO) world0).1.

(** The envelope of scenario B and its bytes on the wire:
    [a2 'P' '1'], [a5 'h' 'e' 'l' 'l' 'o'], [81 a2 'P' '1' 02]. *)
Definition envelope_B : ClockPayload :=
  {| Pid := "P1"; VcMap := {[ "P1" := 2%N ]}; Payload := PStr "hello" |}.

Definition bytes_B : list byte :=
  ["162"; "P"; "1"; "165"; "h"; "e"; "l"; "l"; "o"; "129"; "162"; "P"; "1"; "002"]%byte.

(** *** Vocabulary of the further properties *)

(** The block [logThis] writes for one event: an optional timestamp, the
    process id and the clock on one line, the message on the next. *)
Definition log_record (timestamps : bool) (now : Z)
    (ProcessID VCString Message : string) : string :=
  let buffer := EmptyString in
  let buffer := if timestamps then buffer +:+ pretty now +:+ " " else buffer in
  let buffer := buffer +:+ ProcessID in
  let buffer := buffer +:+ " " in
  let buffer := buffer +:+ VCString in
  let buffer := buffer +:+ newline in
  let buffer := buffer +:+ Message in
  let buffer := buffer +:+ newline in
  buffer.

(** The file [name] exists and can be opened and written to. *)
Definition writable (name : string) (w : World) : Prop :=
  can_open w = true ∧ can_write w = true ∧ is_Some (files w !! name).

(** The world after [s] has been appended to the file [name]. *)
Definition append_file (name s : string) (w : World) : World :=
  set_files (alter (λ c, c +:+ s) name (files w)) w.

(** What [logThis] does to the console. *)
Definition echo (gv : GoLog) (Message : string) (Priority : LogPriority)
    (w : World) : World :=
  if printonscreen gv then printColoredMessage Message Priority w else w.

(** A second envelope, for a stream that holds two. *)
Definition envelope_A : ClockPayload :=
  {| Pid := "P2"; VcMap := {[ "P2" := 7%N; "P1" := 1%N ]};
     Payload := PArr [PUint 300; PBool true] |}.

(** What a logging helper may do to the world: append to the logger's own
    log file and print on the console, nothing else. *)
Definition world_frame (gv : GoLog) (w w' : World) : Prop :=
  (∀ name, name ≠ logfile gv → files w' !! name = files w !! name)
  ∧ (buffered gv = true ∨ logging gv = false → files w' = files w)
  ∧ (printonscreen gv = false ∨ logging gv = false → stdout w' = stdout w)
  ∧ can_open w' = can_open w ∧ can_write w' = can_write w
  ∧ can_create w' = can_create w ∧ can_remove w' = can_remove w
  ∧ can_mkdir w' = can_mkdir w
  ∧ unixnano w' = unixnano w ∧ unixdate w' = unixdate w.

(** The logger and the world a call leaves, when it returns. *)
Definition run_result (c : LogCall) (gv : GoLog) (w : World) : GoLog * World :=
  match run_call c gv w with
  | Returns _ gv' w' => (gv', w')
  | Blocks => (gv, w)
  end.

(** More loggers for the scenarios: the world the buffered logger is
    made in, and a logger that echoes on the console but keeps no file. *)
Definition world_P1_buffered : World :=
  (InitGoVector "P1" "p1" (config_with true INFO) world0).2.

Definition config_screen_only : GoLogConfig :=
  {| Buffered := false; PrintOnScreen := true; AppendLog := false;
     UseTimestamps := false; EncodingStrategy := None; DecodingStrategy := None;
     LogToFile := false; Priority := INFO |}.

Definition logger_P1_screen_only : GoLog :=
  (InitGoVector "P1" "p1" config_screen_only world0).1.

Definition config_append : GoLogConfig :=
  {| Buffered := false; PrintOnScreen := false; AppendLog := true;
     UseTimestamps := false; EncodingStrategy := None; DecodingStrategy := None;
     LogToFile := true; Priority := INFO |}.

Definition config_encoder_only : GoLogConfig :=
  {| Buffered := false; PrintOnScreen := false; AppendLog := false;
     UseTimestamps := false; EncodingStrategy := Some (λ _, ([], None));
     DecodingStrategy := None; LogToFile := true; Priority := INFO |}.

(** A host making one logging call after the other on its logger. *)
Fixpoint run_calls (cs : list LogCall) (gv : GoLog) (w : World) : GoLog * World :=
  match cs with
  | [] => (gv, w)
  | c :: cs' => let '(gv', w') := run_result c gv w in run_calls cs' gv' w'
  end.

Definition is_receive (c : LogCall) : bool :=
  match c with
  | CallReceive _ _ _ _ => true
  | _ => false
  end.

Definition three_events : list LogCall :=
  [CallLocalEvent "start" INFO; CallSend "go" (PStr "hello") WARNING;
   CallLocalEvent "done" FATAL].

(** * Facts *)

(** ** The msgpack primitives read back what they wrote *)

Import Msgpack Codec Wire.

Lemma to_N_byte_of_N (n : N) : Byte.to_N (byte_of_N n) = (n mod 256)%N.
Proof.
  unfold byte_of_N.
  destruct (Byte.of_N (n mod 256)) as [b|] eqn:Hb.
  - simpl. by apply Byte.to_of_N.
  - apply Byte.of_N_None_iff in Hb.
    pose proof (N.mod_upper_bound n 256). lia.
Qed.

Lemma to_N_byte_of_N_small (n : N) : (n < 256)%N → Byte.to_N (byte_of_N n) = n.
Proof. intros. rewrite to_N_byte_of_N. by apply N.mod_small. Qed.

Lemma length_be_bytes (k : nat) (n : N) : length (be_bytes k n) = k.
Proof. induction k as [|k IH]; [done|]. cbn [be_bytes length]. by rewrite IH. Qed.

Lemma be_value_acc (k : nat) (n acc : N) :
  fold_left (λ a b, a * 256 + Byte.to_N b)%N (be_bytes k n) acc
  = (acc * 256 ^ N.of_nat k + n mod 256 ^ N.of_nat k)%N.
Proof.
  revert acc. induction k as [|k IH]; intros acc.
  - simpl. rewrite N.mod_1_r. lia.
  - cbn [be_bytes fold_left]. rewrite IH, to_N_byte_of_N.
    replace (N.of_nat (S k)) with (N.succ (N.of_nat k)) by lia.
    rewrite N.pow_succ_r'.
    rewrite (N.mul_comm 256 (256 ^ N.of_nat k)).
    rewrite (N.Div0.mod_mul_r n (256 ^ N.of_nat k) 256). lia.
Qed.

Lemma be_value_be_bytes (k : nat) (n : N) :
  (n < 256 ^ N.of_nat k)%N → be_value (be_bytes k n) = n.
Proof.
  intros. unfold be_value. rewrite be_value_acc, N.mod_small by done. lia.
Qed.

Lemma readN_app (bs rest : list byte) :
  readN (length bs) (bs ++ rest) = Ok (bs, rest).
Proof.
  unfold readN. rewrite decide_True by (rewrite length_app; lia).
  by rewrite take_app_length, drop_app_length.
Qed.

Lemma read_uint_be_bytes (k : nat) (n : N) (rest : list byte) :
  (n < 256 ^ N.of_nat k)%N → read_uint k (be_bytes k n ++ rest) = Ok (n, rest).
Proof.
  intros. unfold read_uint.
  rewrite <-(length_be_bytes k n) at 1. rewrite readN_app.
  by rewrite be_value_be_bytes.
Qed.

Lemma readCode_cons (n : N) (rest : list byte) :
  (n < 256)%N → readCode (byte_of_N n :: rest) = Ok (n, rest).
Proof. intros. unfold readCode. by rewrite to_N_byte_of_N_small. Qed.

Lemma length_list_byte_of_string (s : string) :
  length (String.list_byte_of_string s) = String.length s.
Proof.
  unfold String.list_byte_of_string. rewrite List.length_map.
  induction s as [|a s IH]; [done|]. cbn. by rewrite IH.
Qed.

Lemma read_uint_1 n rest : (n < 256)%N → read_uint 1 (be_bytes 1 n ++ rest) = Ok (n, rest).
Proof. intros. by apply read_uint_be_bytes. Qed.
Lemma read_uint_2 n rest : (n < 65536)%N → read_uint 2 (be_bytes 2 n ++ rest) = Ok (n, rest).
Proof. intros. by apply read_uint_be_bytes. Qed.
Lemma read_uint_4 n rest : (n < 2 ^ 32)%N → read_uint 4 (be_bytes 4 n ++ rest) = Ok (n, rest).
Proof. intros. by apply read_uint_be_bytes. Qed.
Lemma read_uint_8 n rest : (n < 2 ^ 64)%N → read_uint 8 (be_bytes 8 n ++ rest) = Ok (n, rest).
Proof. intros. by apply read_uint_be_bytes. Qed.

Ltac split_ltb :=
  repeat match goal with
  | |- context [(?a <? ?b)%N] => destruct (N.ltb_spec a b)
  end.

(** Goals on the class of a format code, by arithmetic. *)
Ltac code_class :=
  unfold is_array_code, is_uint_code, is_str_code,
    FixedMapLow, FixedArrayLow, FixedStrLow, Nil, False', True',
    Uint8, Uint16, Uint32, Uint64, Str8, Str16, Str32, Array16, Array32,
    Map16, Map32 in *;
  rewrite ?orb_true_iff, ?orb_false_iff, ?andb_true_iff, ?andb_false_iff,
    ?N.leb_le, ?N.ltb_lt, ?N.leb_gt, ?N.ltb_ge, ?N.eqb_eq, ?N.eqb_neq;
  lia.

(** What a decoder finds at the head of an encoded unsigned number. *)
Lemma EncodeUint_head (n : N) (rest : list byte) :
  (n < 2 ^ 64)%N →
  ∃ c r, readCode (EncodeUint n ++ rest) = Ok (c, r)
       ∧ is_uint_code c = true
       ∧ c ≠ Nil ∧ c ≠ False' ∧ c ≠ True'
       ∧ decode_uint c r = Ok (n, rest).
Proof.
  intros Hn. unfold EncodeUint. split_ltb; cbn [app]; eexists _, _;
    (split; [apply readCode_cons; code_class|]);
    (split; [code_class|]); do 3 (split; [code_class|]).
  - unfold decode_uint. by rewrite (proj2 (N.ltb_lt n 128)).
  - by apply read_uint_1.
  - by apply read_uint_2.
  - by apply read_uint_4.
  - by apply read_uint_8.
Qed.

Lemma DecodeUint64_EncodeUint (n : N) (rest : list byte) :
  (n < 2 ^ 64)%N → DecodeUint64 (EncodeUint n ++ rest) = Ok (n, rest).
Proof.
  intros Hn. unfold DecodeUint64.
  destruct (EncodeUint_head n rest Hn) as (c & r & -> & _ & _ & _ & _ & ->). done.
Qed.

Lemma DecodeMapLen_EncodeMapLen (l : N) (rest : list byte) :
  (l < 2 ^ 32)%N → DecodeMapLen (EncodeMapLen l ++ rest) = Ok (l, rest).
Proof.
  intros Hl. unfold EncodeMapLen, DecodeMapLen. split_ltb; cbn [app].
  - rewrite readCode_cons by code_class.
    replace (_ && _) with true by (symmetry; code_class).
    do 2 f_equal. lia.
  - rewrite readCode_cons by done. by apply read_uint_2.
  - rewrite readCode_cons by done. by apply read_uint_4.
Qed.

(** What a decoder finds at the head of an encoded array length. *)
Lemma EncodeArrayLen_head (l : N) (rest : list byte) :
  (l < 2 ^ 32)%N →
  ∃ c r, readCode (EncodeArrayLen l ++ rest) = Ok (c, r)
       ∧ is_array_code c = true
       ∧ c ≠ Nil ∧ c ≠ False' ∧ c ≠ True'
       ∧ is_uint_code c = false ∧ is_str_code c = false
       ∧ decode_array_len c r = Ok (l, rest).
Proof.
  intros Hl. unfold EncodeArrayLen. split_ltb; cbn [app]; eexists _, _;
    (split; [apply readCode_cons; code_class|]);
    (split; [code_class|]); do 5 (split; [code_class|]).
  - unfold decode_array_len.
    replace (_ && _) with true by (symmetry; code_class).
    do 2 f_equal. lia.
  - by apply read_uint_2.
  - by apply read_uint_4.
Qed.

(** What a decoder finds at the head of an encoded string. *)
Lemma EncodeString_head (s : string) (rest : list byte) :
  (N.of_nat (String.length s) < 2 ^ 32)%N →
  ∃ c r, readCode (EncodeString s ++ rest) = Ok (c, r)
       ∧ is_str_code c = true
       ∧ c ≠ Nil ∧ c ≠ False' ∧ c ≠ True'
       ∧ is_uint_code c = false
       ∧ decode_string c r = Ok (s, rest).
Proof.
  intros Hl. unfold EncodeString, encodeStrLen.
  rewrite length_list_byte_of_string.
  set (l := N.of_nat (String.length s)) in *.
  set (bs := String.list_byte_of_string s).
  assert (Hrd : ∀ r, readN (N.to_nat l) (bs ++ r) = Ok (bs, r)).
  { intros r. unfold l, bs. rewrite Nat2N.id, <-length_list_byte_of_string.
    apply readN_app. }
  assert (Hs : String.string_of_list_byte bs = s)
    by apply String.string_of_list_byte_of_string.
  split_ltb; cbn [app]; eexists _, _;
    (split; [apply readCode_cons; code_class|]);
    (split; [code_class|]); do 4 (split; [code_class|]);
    unfold decode_string, bytesLen.
  - replace (_ && _) with true by (symmetry; code_class).
    replace (FixedStrLow + l - FixedStrLow)%N with l by lia.
    by rewrite Hrd, Hs.
  - change ((FixedStrLow <=? Str8)%N && (Str8 <? Nil)%N) with false.
    change (Str8 =? Str8)%N with true. cbv iota.
    rewrite <-app_assoc, read_uint_1 by done. by rewrite Hrd, Hs.
  - change ((FixedStrLow <=? Str16)%N && (Str16 <? Nil)%N) with false.
    change (Str16 =? Str8)%N with false.
    change (Str16 =? Str16)%N with true. cbv iota.
    rewrite <-app_assoc, read_uint_2 by done. by rewrite Hrd, Hs.
  - change ((FixedStrLow <=? Str32)%N && (Str32 <? Nil)%N) with false.
    change (Str32 =? Str8)%N with false.
    change (Str32 =? Str16)%N with false.
    change (Str32 =? Str32)%N with true. cbv iota.
    rewrite <-app_assoc, read_uint_4 by done. by rewrite Hrd, Hs.
Qed.

Lemma DecodeString_EncodeString (s : string) (rest : list byte) :
  (N.of_nat (String.length s) < 2 ^ 32)%N →
  DecodeString (EncodeString s ++ rest) = Ok (s, rest).
Proof.
  intros Hl. unfold DecodeString.
  destruct (EncodeString_head s rest Hl) as (c & r & -> & _ & _ & _ & _ & _ & ->). done.
Qed.

Lemma DecodeString_nil : DecodeString [] = Err EOF.
Proof. done. Qed.


(** ** The payload codec reads back what it wrote *)


Lemma payload_ind (P : payload → Prop) :
  P PNil → (∀ b, P (PBool b)) → (∀ n, P (PUint n)) → (∀ s, P (PStr s)) →
  (∀ vs, Forall P vs → P (PArr vs)) → P PChan → ∀ v, P v.
Proof.
  intros HN HB HU HS HA HC. fix IH 1.
  intros [ | b | n | s | vs | ];
    [apply HN | apply HB | apply HU | apply HS | | apply HC].
  apply HA. induction vs as [|v vs IHvs]; constructor; [apply IH | apply IHvs].
Qed.

(** The bytes of a supported payload, and no error. *)
Lemma Encode_supported (v : payload) :
  supported v = true → (Encode v).2 = None.
Proof.
  induction v as [ | b | n | s | vs IH | ] using payload_ind; try done.
  cbn [supported Encode]. intros [_ Hvs]%andb_true_iff.
  assert (He : (encode_elems Encode vs).2 = None).
  { induction IH as [|v vs Hv _ IHvs]; [done|].
    cbn [forallb] in Hvs. apply andb_true_iff in Hvs as [Hs Hvs].
    cbn [encode_elems]. specialize (Hv Hs). specialize (IHvs Hvs).
    destruct (Encode v) as [b [e|]]; [done|].
    by destruct (encode_elems Encode vs) as [b' e']. }
  by destruct (encode_elems Encode vs) as [b e].
Qed.

Lemma decode_elems_encode_elems (fuel : nat) (vs : list payload) (rest : list byte) :
  Forall (λ v, supported v = true →
               ∀ fuel rest, need v ≤ fuel →
                 decode_value fuel ((Encode v).1 ++ rest) = Ok (v, rest)) vs →
  forallb supported vs = true →
  foldr (λ v n, need v `max` n) 0 vs ≤ fuel →
  decode_elems (decode_value fuel) (length vs) ((encode_elems Encode vs).1 ++ rest)
  = Ok (vs, rest).
Proof.
  intros IH. revert rest. induction IH as [|v vs Hv _ IHvs]; intros rest Hs Hf; [done|].
  cbn [forallb] in Hs. apply andb_true_iff in Hs as [Hsv Hs].
  cbn [foldr] in Hf. cbn [encode_elems length decode_elems].
  pose proof (Encode_supported v Hsv) as He.
  destruct (Encode v) as [b e] eqn:Hb. cbn in He. subst e.
  destruct (encode_elems Encode vs) as [b' e'] eqn:Hb'. cbn [fst].
  rewrite <-app_assoc.
  specialize (Hv Hsv fuel (b' ++ rest)). cbn [fst] in Hv. rewrite Hv by lia.
  specialize (IHvs rest Hs). cbn [fst] in IHvs. rewrite IHvs by lia. done.
Qed.

Lemma decode_value_Encode (v : payload) :
  supported v = true →
  ∀ fuel rest, need v ≤ fuel →
    decode_value fuel ((Encode v).1 ++ rest) = Ok (v, rest).
Proof.
  induction v as [ | b | n | s | vs IH | ] using payload_ind;
    intros Hs [|fuel] rest Hf; try (cbn in Hf; lia); try done.
  - by destruct b.
  - cbn [supported] in Hs. apply N.ltb_lt in Hs.
    destruct (EncodeUint_head n rest Hs) as (c & r & Hc & Hu & ?%N.eqb_neq & ?%N.eqb_neq & ?%N.eqb_neq & Hd).
    cbn [Encode fst decode_value]. rewrite Hc.
    by repeat match goal with H : _ = _ |- _ => rewrite H end.
  - cbn [supported] in Hs. apply N.ltb_lt in Hs.
    destruct (EncodeString_head s rest Hs) as (c & r & Hc & Hu & ?%N.eqb_neq & ?%N.eqb_neq & ?%N.eqb_neq & Hnu & Hd).
    cbn [Encode fst decode_value]. rewrite Hc.
    by repeat match goal with H : _ = _ |- _ => rewrite H end.
  - cbn [supported] in Hs. apply andb_true_iff in Hs as [Hl%N.ltb_lt Hs].
    cbn [need] in Hf.
    cbn [Encode]. destruct (encode_elems Encode vs) as [b e] eqn:Hb.
    cbn [fst]. rewrite <-app_assoc.
    destruct (EncodeArrayLen_head (N.of_nat (length vs)) (b ++ rest) Hl)
      as (c & r & Hc & Ha & ?%N.eqb_neq & ?%N.eqb_neq & ?%N.eqb_neq & Hnu & Hns & Hd).
    cbn [decode_value]. rewrite Hc.
    repeat match goal with H : _ = _ |- _ => rewrite H end.
    rewrite Nat2N.id.
    pose proof (decode_elems_encode_elems fuel vs rest IH Hs) as Hel.
    rewrite Hb in Hel. cbn [fst] in Hel. rewrite Hel by lia. done.
Qed.

Lemma length_encode_elems (vs : list payload) :
  Forall (λ v, supported v = true → need v ≤ length (Encode v).1) vs →
  forallb supported vs = true →
  foldr (λ v n, need v `max` n) 0 vs ≤ length (encode_elems Encode vs).1.
Proof.
  induction 1 as [|v vs Hv _ IHvs]; intros Hs; [done|].
  cbn [forallb] in Hs. apply andb_true_iff in Hs as [Hsv Hs].
  cbn [foldr encode_elems].
  pose proof (Encode_supported v Hsv) as He.
  destruct (Encode v) as [b e] eqn:Hb. cbn in He. subst e.
  destruct (encode_elems Encode vs) as [b' e'] eqn:Hb'. cbn [fst] in *.
  rewrite length_app. specialize (Hv Hsv). specialize (IHvs Hs). lia.
Qed.

Lemma length_EncodeArrayLen (l : N) : 1 ≤ length (EncodeArrayLen l).
Proof. unfold EncodeArrayLen. split_ltb; cbn [length]; lia. Qed.

Lemma need_le_length (v : payload) :
  supported v = true → need v ≤ length (Encode v).1.
Proof.
  induction v as [ | b | n | s | vs IH | ] using payload_ind; intros Hs; try done.
  - cbn [Encode fst need]. unfold EncodeUint. split_ltb; cbn [length]; lia.
  - cbn [Encode fst need]. unfold EncodeString, encodeStrLen.
    rewrite length_app. split_ltb; cbn [length]; lia.
  - cbn [supported] in Hs. apply andb_true_iff in Hs as [_ Hs].
    pose proof (length_encode_elems vs IH Hs) as Hel.
    cbn [Encode need]. destruct (encode_elems Encode vs) as [b e].
    cbn [fst] in *. rewrite length_app.
    pose proof (length_EncodeArrayLen (N.of_nat (length vs))). lia.
Qed.

(** Decoding after encoding gives the payload back and leaves what
    followed it unread. *)
Lemma Decode_Encode (v : payload) (rest : list byte) :
  supported v = true → Decode ((Encode v).1 ++ rest) = Ok (v, rest).
Proof.
  intros Hs. unfold Decode. apply decode_value_Encode; [done|].
  pose proof (need_le_length v Hs). rewrite length_app. lia.
Qed.


(** *** The fuel of [decode_value] is never what stops it

    Every value read consumes at least its header byte, so more fuel than
    there are bytes changes nothing: [Decode] is the decoder, not an
    approximation of it. *)

Lemma readN_rest (n : nat) (r bs r' : list byte) :
  readN n r = Ok (bs, r') → length r' ≤ length r.
Proof.
  unfold readN. case_decide; [|done]. intros [= _ <-]. rewrite length_drop. lia.
Qed.

Lemma read_uint_rest (k : nat) (r : list byte) (n : N) (r' : list byte) :
  read_uint k r = Ok (n, r') → length r' ≤ length r.
Proof.
  unfold read_uint. destruct (readN k r) as [[bs r1]|] eqn:Hr; [|done].
  intros [= _ <-]. by eapply readN_rest.
Qed.

Lemma decode_uint_rest (c : N) (r : list byte) (n : N) (r' : list byte) :
  decode_uint c r = Ok (n, r') → length r' ≤ length r.
Proof.
  unfold decode_uint. repeat case_match; try done;
    first [intros [= _ <-]; lia | apply read_uint_rest].
Qed.

Lemma decode_array_len_rest (c : N) (r : list byte) (n : N) (r' : list byte) :
  decode_array_len c r = Ok (n, r') → length r' ≤ length r.
Proof.
  unfold decode_array_len. repeat case_match; try done;
    first [intros [= _ <-]; lia | apply read_uint_rest].
Qed.

Lemma decode_string_rest (c : N) (r : list byte) (s : string) (r' : list byte) :
  decode_string c r = Ok (s, r') → length r' ≤ length r.
Proof.
  unfold decode_string. destruct (bytesLen c r) as [[n r1]|] eqn:Hl; [|done].
  destruct (readN (N.to_nat n) r1) as [[b r2]|] eqn:Hr; [|done].
  intros [= _ <-]. apply readN_rest in Hr.
  unfold bytesLen in Hl. repeat case_match; try done;
    first [injection Hl as _ <-; lia | apply read_uint_rest in Hl; lia].
Qed.

Lemma decode_elems_rest (dv : list byte → result (payload * list byte))
    (k : nat) (r : list byte) (vs : list payload) (r' : list byte) :
  (∀ r v r', dv r = Ok (v, r') → length r' ≤ length r) →
  decode_elems dv k r = Ok (vs, r') → length r' ≤ length r.
Proof.
  intros Hdv. revert r vs. induction k as [|k IH]; intros r vs; cbn.
  - by intros [= _ <-].
  - destruct (dv r) as [[v r1]|] eqn:Hv; [|done].
    destruct (decode_elems dv k r1) as [[vs1 r2]|] eqn:Hk; [|done].
    intros [= _ <-]. apply Hdv in Hv. apply IH in Hk. lia.
Qed.

Lemma decode_value_rest (fuel : nat) (r : list byte) (v : payload) (r' : list byte) :
  decode_value fuel r = Ok (v, r') → length r' < length r.
Proof.
  revert r v r'. induction fuel as [|fuel IH]; intros r v r'; [done|].
  cbn [decode_value]. destruct r as [|b r1]; [done|]. cbn [readCode length].
  repeat case_match; try done; intros [= _ <-]; try lia.
  - match goal with H : decode_uint _ _ = _ |- _ => apply decode_uint_rest in H end. lia.
  - match goal with H : decode_string _ _ = _ |- _ => apply decode_string_rest in H end. lia.
  - match goal with H : decode_array_len _ _ = _ |- _ =>
      apply decode_array_len_rest in H end.
    match goal with H : decode_elems _ _ _ = _ |- _ =>
      apply decode_elems_rest in H; [|intros ??? Hv; apply IH in Hv; lia] end.
    lia.
Qed.

Lemma decode_elems_ext (dv1 dv2 : list byte → result (payload * list byte))
    (bound : nat) (k : nat) (r : list byte) :
  (∀ r, length r ≤ bound → dv1 r = dv2 r) →
  (∀ r v r', dv1 r = Ok (v, r') → length r' ≤ length r) →
  length r ≤ bound →
  decode_elems dv1 k r = decode_elems dv2 k r.
Proof.
  intros Heq Hrest. revert r. induction k as [|k IH]; intros r Hr; [done|].
  cbn. rewrite <-Heq by done. destruct (dv1 r) as [[v r1]|] eqn:Hv; [|done].
  apply Hrest in Hv. rewrite IH by lia. done.
Qed.

Lemma decode_value_fuel (fuel1 fuel2 : nat) (r : list byte) :
  length r < fuel1 → length r < fuel2 →
  decode_value fuel1 r = decode_value fuel2 r.
Proof.
  revert fuel2 r. induction fuel1 as [|fuel1 IH]; intros fuel2 r H1 H2; [lia|].
  destruct fuel2 as [|fuel2]; [lia|].
  cbn [decode_value]. destruct r as [|b r1]; [done|]. cbn [readCode length] in *.
  repeat case_match; try done.
  all: match goal with
       | Ha : decode_array_len _ _ = Ok (_, ?r2),
         H1 : decode_elems (decode_value ?f1) ?k ?r2 = _,
         H2 : decode_elems (decode_value ?f2) ?k ?r2 = _ |- _ =>
           apply decode_array_len_rest in Ha;
           rewrite (decode_elems_ext (decode_value f1) (decode_value f2)
                      (length r2) k r2) in H1;
           [ rewrite H1 in H2; by simplify_eq
           | intros r' Hr'; apply IH; lia
           | intros r' v r'' Hv; apply decode_value_rest in Hv; lia
           | lia ]
       end.
Qed.

Lemma Decode_fuel (fuel : nat) (r : list byte) :
  length r < fuel → decode_value fuel r = Decode r.
Proof. intros. unfold Decode. apply decode_value_fuel; lia. Qed.

(** ** The envelope codec *)

Lemma decode_entries_encode_entries (kvs : list (string * N)) (acc : gmap string N)
    (rest : list byte) :
  Forall entry_ok kvs →
  decode_entries (length kvs) acc (encode_entries kvs ++ rest)
  = Ok (foldl (λ m kv, <[kv.1 := kv.2]> m) acc kvs, rest).
Proof.
  intros Hok. revert acc.
  induction Hok as [|[key value] kvs [Hk Hv] _ IH]; intros acc; [done|].
  cbn [encode_entries length decode_entries foldl fst snd] in *.
  rewrite <-!app_assoc.
  rewrite DecodeString_EncodeString by done.
  rewrite DecodeUint64_EncodeUint by done.
  apply IH.
Qed.

Lemma foldl_insert_list_to_map (kvs : list (string * N)) (acc : gmap string N) :
  NoDup kvs.*1 →
  foldl (λ m kv, <[kv.1 := kv.2]> m) acc kvs = list_to_map kvs ∪ acc.
Proof.
  revert acc. induction kvs as [|[k v] kvs IH]; intros acc Hnd.
  - cbn. by rewrite (left_id_L ∅ (∪)).
  - cbn [fmap list_fmap fst] in Hnd. apply NoDup_cons in Hnd as [Hk Hnd].
    cbn [foldl list_to_map foldr fst snd]. rewrite IH by done.
    rewrite <-insert_union_l. symmetry. apply insert_union_r.
    by apply not_elem_of_list_to_map_1.
Qed.

(** Whatever order the range loop of the encoder takes, the decoder's loop
    rebuilds the same map. *)
Lemma foldl_insert_range (m : gmap string N) (kvs : list (string * N)) :
  kvs ≡ₚ map_to_list m →
  foldl (λ m kv, <[kv.1 := kv.2]> m) ∅ kvs = m.
Proof.
  intros Hp. rewrite foldl_insert_list_to_map.
  - rewrite (right_id_L ∅ (∪)). symmetry. by apply list_to_map_flip.
  - rewrite Hp. apply NoDup_fst_map_to_list.
Qed.

Lemma Forall_entry_ok_range (m : gmap string N) (kvs : list (string * N)) :
  map_Forall (λ k v, entry_ok (k, v)) m → kvs ≡ₚ map_to_list m → Forall entry_ok kvs.
Proof.
  intros Hm Hp. rewrite Hp. apply Forall_forall. intros [k v] Hin.
  apply elem_of_map_to_list in Hin. by apply (Hm k v).
Qed.

(** The encoder succeeds on an envelope that fits the wire format. *)
Lemma EncodeMsgpack_range_ok (kvs : list (string * N)) (d : ClockPayload) :
  wire_ok d → (EncodeMsgpack_range kvs d).2 = None.
Proof.
  intros (_ & Hs & _). unfold EncodeMsgpack_range.
  pose proof (Encode_supported _ Hs) as He.
  by destruct (Encode (Payload d)) as [b [e|]].
Qed.

(** [DecodeMsgpack] on the bytes of [EncodeMsgpack]: the payload and the
    clock map come back, but the decoder goes on to read a second
    [(pid, payload, map)] triple that is not there, so it returns [EOF]
    and leaves the pid empty. *)
Lemma DecodeMsgpack_any_range (kvs : list (string * N)) (d e : ClockPayload) :
  wire_ok d → kvs ≡ₚ map_to_list (VcMap d) →
  DecodeMsgpack e (EncodeMsgpack_range kvs d).1
  = ({| Pid := EmptyString; VcMap := VcMap d; Payload := Payload d |}, [], Some EOF).
Proof.
  intros (Hp & Hs & Hsz & Hm) Hperm. unfold EncodeMsgpack_range.
  pose proof (Encode_supported _ Hs) as He.
  pose proof (Decode_Encode (Payload d)) as Hd.
  destruct (Encode (Payload d)) as [b2 e2]. cbn in He. subst e2. cbn [fst] in *.
  unfold DecodeMsgpack.
  rewrite DecodeString_EncodeString by done.
  rewrite Hd by done.
  rewrite DecodeMapLen_EncodeMapLen by done.
  rewrite Nat2N.id.
  replace (size (VcMap d)) with (length kvs)
    by (by rewrite Hperm, length_map_to_list).
  rewrite <-(app_nil_r (encode_entries kvs)).
  rewrite decode_entries_encode_entries by (by eapply Forall_entry_ok_range).
  rewrite (foldl_insert_range (VcMap d)) by done.
  done.
Qed.

Lemma Unmarshal_Marshal (d e : ClockPayload) :
  wire_ok d →
  (Marshal d).2 = None ∧
  Unmarshal (Marshal d).1 e
  = ({| Pid := EmptyString; VcMap := VcMap d; Payload := Payload d |}, Some EOF).
Proof.
  intros Hok. split; [by apply EncodeMsgpack_range_ok|].
  unfold Unmarshal, Marshal, EncodeMsgpack.
  by rewrite DecodeMsgpack_any_range.
Qed.

(** Read as the three fields they are, the bytes of [EncodeMsgpack] give
    the envelope back and nothing is left over. *)
Lemma Decode_fields_any_range (kvs : list (string * N)) (d e : ClockPayload) :
  wire_ok d → kvs ≡ₚ map_to_list (VcMap d) →
  Decode_fields e (EncodeMsgpack_range kvs d).1 = (d, [], None).
Proof.
  intros (Hp & Hs & Hsz & Hm) Hperm. unfold EncodeMsgpack_range.
  pose proof (Encode_supported _ Hs) as He.
  pose proof (Decode_Encode (Payload d)) as Hd.
  destruct (Encode (Payload d)) as [b2 e2]. cbn in He. subst e2. cbn [fst] in *.
  unfold Decode_fields.
  rewrite DecodeString_EncodeString by done.
  rewrite Hd by done.
  rewrite DecodeMapLen_EncodeMapLen by done.
  rewrite Nat2N.id.
  replace (size (VcMap d)) with (length kvs)
    by (by rewrite Hperm, length_map_to_list).
  rewrite <-(app_nil_r (encode_entries kvs)).
  rewrite decode_entries_encode_entries by (by eapply Forall_entry_ok_range).
  rewrite (foldl_insert_range (VcMap d)) by done.
  by destruct d.
Qed.

(** ** The vector clock *)

Lemma lookup_Tick_eq (vc : vclock.VClock) (p : string) :
  vclock.Tick vc p !! p = Some (vclock.uint64 (default 0%N (vc !! p) + 1)).
Proof. unfold vclock.Tick. by rewrite lookup_insert_eq. Qed.

Lemma lookup_Tick_ne (vc : vclock.VClock) (p k : string) :
  p ≠ k → vclock.Tick vc p !! k = vc !! k.
Proof. intros. unfold vclock.Tick. by rewrite lookup_insert_ne. Qed.

Lemma lookup_Merge (vc other : vclock.VClock) (k : string) :
  vclock.Merge vc other !! k
  = match other !! k with
    | Some v => Some (N.max (default 0%N (vc !! k)) v)
    | None => vc !! k
    end.
Proof.
  unfold vclock.Merge. revert k.
  apply (map_fold_weak_ind (λ r m, ∀ k, r !! k = match m !! k with
    | Some v => Some (N.max (default 0%N (vc !! k)) v)
    | None => vc !! k end)).
  - intros k. by rewrite lookup_empty.
  - intros i x m r Hi IH k. destruct (decide (i = k)) as [->|Hne].
    + rewrite !lookup_insert_eq. by rewrite (IH k), Hi.
    + rewrite !lookup_insert_ne by done. apply IH.
Qed.

Lemma Merge_empty (vc : vclock.VClock) : vclock.Merge vc ∅ = vc.
Proof. apply map_eq. intros k. by rewrite lookup_Merge, lookup_empty. Qed.

(** The merged clock is at least the incoming one, key by key. *)
Lemma Merge_dominates (vc other : vclock.VClock) (k : string) (s : N) :
  other !! k = Some s →
  ∃ m, vclock.Merge vc other !! k = Some m ∧ (s ≤ m)%N.
Proof. intros Hk. rewrite lookup_Merge, Hk. eexists. split; [done|lia]. Qed.

(** ** The helpers of the logger *)

Lemma same_settings_refl gv : same_settings gv gv.
Proof. by repeat split. Qed.

Lemma same_settings_trans gv1 gv2 gv3 :
  same_settings gv1 gv2 → same_settings gv2 gv3 → same_settings gv1 gv3.
Proof. unfold same_settings. intros H1 H2. destruct_and!. repeat split; congruence. Qed.

Lemma Flush_gv gv w : (Flush gv w).1.2 = set_output EmptyString gv.
Proof.
  unfold Flush. destruct (os_OpenFile_append _ _) as [file err].
  by destruct (file_WriteString _ _ _) as [err' w'].
Qed.

Lemma logThis_gv Message ProcessID VCString Priority gv w :
  ∃ s, (logThis Message ProcessID VCString Priority gv w).1.2 = set_output s gv
       ∧ (buffered gv = false → s = EmptyString).
Proof.
  unfold logThis. destruct gv as [? ? ? ? [] ? ? ? ? ? ? ? ? ?]; cbn.
  - eexists. split; [reflexivity|done].
  - match goal with |- context [Flush ?g w] =>
      pose proof (Flush_gv g w) as HF; destruct (Flush g w) as [[ok g'] w'] end.
    cbn in *. subst g'. eexists. split; [reflexivity|done].
Qed.

Lemma logWriteWrapper_gv logMessage errorMessage Priority gv w :
  let gv' := (logWriteWrapper logMessage errorMessage Priority gv w).1.2 in
  same_settings gv gv' ∧ currentVC gv' = currentVC gv ∧ mutex gv' = mutex gv
  ∧ (buffer_inv gv → buffer_inv gv')
  ∧ (∀ line, line ∈ logger gv → line ∈ logger gv').
Proof.
  unfold logWriteWrapper. destruct (logging gv) eqn:Hl; cbn zeta.
  - destruct (logThis_gv logMessage (pid gv) (vclock.ReturnVCString (currentVC gv))
               Priority gv w) as (s & Hs & Hb).
    destruct (logThis _ _ _ _ _ _) as [[ok g'] w']. cbn in Hs. subst g'.
    destruct gv; destruct ok; cbn in *;
      repeat split; try done;
      try (intros line ?; set_solver); unfold buffer_inv; cbn; auto.
  - cbn. by repeat split.
Qed.

Lemma tickClock_gv gv :
  let gv' := tickClock gv in
  same_settings gv gv' ∧ currentVC gv' = vclock.Tick (currentVC gv) (pid gv)
  ∧ mutex gv' = mutex gv ∧ output gv' = output gv
  ∧ (∀ line, line ∈ logger gv → line ∈ logger gv').
Proof.
  unfold tickClock, vclock.FindTicks.
  destruct (currentVC gv !! pid gv); destruct gv; cbn; repeat split; try done;
    intros line ?; set_solver.
Qed.

Lemma mutex_Lock_free gv : mutex gv = false → mutex_Lock gv = Some (set_mutex true gv).
Proof. unfold mutex_Lock. by intros ->. Qed.

Lemma mutex_Lock_held gv : mutex gv = true → mutex_Lock gv = None.
Proof. unfold mutex_Lock. by intros ->. Qed.

Lemma buffer_inv_same gv gv' :
  same_settings gv gv' → output gv' = output gv → buffer_inv gv → buffer_inv gv'.
Proof. unfold buffer_inv. intros Hs Ho Hi Hb. rewrite Ho. apply Hi. by rewrite <-(proj1 (proj2 (proj2 (proj2 Hs)))). Qed.

Lemma mergeIncomingClock_gv mesg e Priority gv w :
  let gv' := (mergeIncomingClock mesg e Priority gv w).1 in
  same_settings gv gv'
  ∧ currentVC gv' = vclock.Merge (vclock.Tick (currentVC gv) (pid gv)) (VcMap e)
  ∧ mutex gv' = mutex gv
  ∧ (buffer_inv gv → buffer_inv gv')
  ∧ (∀ line, line ∈ logger gv → line ∈ logger gv').
Proof.
  unfold mergeIncomingClock.
  destruct (tickClock_gv gv) as (Hs1 & Hvc1 & Hm1 & Ho1 & Hl1).
  set (g1 := tickClock gv) in *.
  set (g2 := set_currentVC _ g1).
  assert (Hs2 : same_settings g1 g2) by (by repeat split).
  pose proof (logWriteWrapper_gv mesg "Something went Wrong, Could not Log!"
                Priority g2 w) as (Hs3 & Hvc3 & Hm3 & Hb3 & Hl3).
  destruct (logWriteWrapper _ _ _ g2 w) as [[ok g3] w3]. cbn [fst snd] in *.
  split; [eauto using same_settings_trans|].
  split; [by rewrite Hvc3; subst g2; cbn; rewrite Hvc1|].
  split; [by rewrite Hm3; subst g2; cbn|].
  split; [|intros line ?; apply Hl3; subst g2; cbn; by apply Hl1].
  intros Hb. apply Hb3. apply (buffer_inv_same g1); [done|done|].
  by apply (buffer_inv_same gv).
Qed.

(** ** The three calls, priority passing *)

Lemma UnpackReceive_passes mesg buf unpack Priority gv w e err :
  mutex gv = false → (priority gv ≤ Priority)%Z →
  decodingStrategy gv buf (blank_envelope unpack) = (e, err) →
  ∃ gv' w',
    UnpackReceiveWithPriority mesg buf unpack Priority gv w = Returns (Payload e) gv' w'
    ∧ same_settings gv gv' ∧ mutex gv' = false
    ∧ currentVC gv' = vclock.Merge (vclock.Tick (currentVC gv) (pid gv)) (VcMap e)
    ∧ (∀ msg, err = Some msg → msg ∈ logger gv')
    ∧ (buffer_inv gv → buffer_inv gv').
Proof.
  intros Hm Hp Hdec. unfold UnpackReceiveWithPriority.
  rewrite mutex_Lock_free by done. cbn [priority set_mutex decodingStrategy].
  rewrite (proj2 (Z.geb_le _ _)) by done.
  fold (blank_envelope unpack). rewrite Hdec.
  set (g0 := set_mutex true gv).
  set (g1 := match err with Some msg => logger_Println msg g0 | None => g0 end).
  pose proof (mergeIncomingClock_gv mesg e Priority g1 w) as (Hs & Hvc & Hmx & Hb & Hl).
  destruct (mergeIncomingClock mesg e Priority g1 w) as [g2 w2]. cbn [fst] in *.
  assert (Hs1 : same_settings gv g1) by (subst g1 g0; destruct err; by repeat split).
  assert (Ho1 : output g1 = output gv) by (subst g1 g0; by destruct err).
  eexists _, _. split; [reflexivity|].
  split; [unfold mutex_Unlock; destruct Hs1, Hs; destruct_and!; repeat split; cbn; congruence|].
  split; [done|].
  split; [unfold mutex_Unlock; cbn; rewrite Hvc; subst g1 g0; by destruct err|].
  split.
  - intros msg ->. unfold mutex_Unlock. cbn. apply Hl. subst g1 g0. cbn. set_solver.
  - intros Hi. unfold mutex_Unlock, buffer_inv. cbn. apply Hb.
    by apply (buffer_inv_same gv).
Qed.

Lemma PrepareSend_passes mesg buf Priority gv w bytes err :
  mutex gv = false → (priority gv ≤ Priority)%Z →
  encodingStrategy gv (outgoing_envelope gv buf) = (bytes, err) →
  ∃ gv' w',
    PrepareSendWithPriority mesg buf Priority gv w = Returns bytes gv' w'
    ∧ same_settings gv gv' ∧ mutex gv' = false
    ∧ currentVC gv' = vclock.Tick (currentVC gv) (pid gv)
    ∧ (∀ msg, err = Some msg → msg ∈ logger gv')
    ∧ (buffer_inv gv → buffer_inv gv').
Proof.
  intros Hm Hp Henc. unfold PrepareSendWithPriority.
  rewrite mutex_Lock_free by done. cbn [priority set_mutex].
  rewrite (proj2 (Z.geb_le _ _)) by done.
  set (g0 := set_mutex true gv).
  destruct (tickClock_gv g0) as (Hs1 & Hvc1 & Hm1 & Ho1 & Hl1).
  set (g1 := tickClock g0) in *.
  pose proof (logWriteWrapper_gv mesg "Something went wrong, could not log prepare send"
                Priority g1 w) as (Hs2 & Hvc2 & Hm2 & Hb2 & Hl2).
  destruct (logWriteWrapper _ _ _ g1 w) as [[ok g2] w2]. cbn [fst snd] in *.
  assert (Hs : same_settings gv g2).
  { apply (same_settings_trans _ g1); [|done].
    apply (same_settings_trans _ g0); [by repeat split|done]. }
  assert (Hd : {| Pid := pid g2; VcMap := vclock.GetMap (currentVC g2); Payload := buf |}
               = outgoing_envelope gv buf).
  { unfold outgoing_envelope. rewrite Hvc2, Hvc1. subst g0. cbn.
    by rewrite (proj1 Hs). }
  rewrite Hd. replace (encodingStrategy g2) with (encodingStrategy gv)
    by (symmetry; apply Hs).
  rewrite Henc.
  eexists _, _. split; [reflexivity|].
  split; [unfold mutex_Unlock; destruct Hs; destruct_and!; destruct err; repeat split; cbn; congruence|].
  split; [done|].
  split; [unfold mutex_Unlock; destruct err; cbn; rewrite Hvc2, Hvc1; by subst g0|].
  split.
  - intros msg ->. unfold mutex_Unlock. cbn. set_solver.
  - intros Hi. unfold mutex_Unlock, buffer_inv. destruct err; cbn; apply Hb2;
      (apply (buffer_inv_same g0); [done|done|]); by apply (buffer_inv_same gv).
Qed.

Lemma LogLocalEvent_passes LogMessage Priority gv w :
  mutex gv = false → (priority gv ≤ Priority)%Z →
  ∃ logSuccess gv' w',
    LogLocalEventWithPriority LogMessage Priority gv w = Returns logSuccess gv' w'
    ∧ same_settings gv gv' ∧ mutex gv' = false
    ∧ currentVC gv' = vclock.Tick (currentVC gv) (pid gv)
    ∧ (buffer_inv gv → buffer_inv gv').
Proof.
  intros Hm Hp. unfold LogLocalEventWithPriority.
  rewrite mutex_Lock_free by done. cbn [priority set_mutex].
  rewrite (proj2 (Z.geb_le _ _)) by done.
  set (g0 := set_mutex true gv).
  destruct (tickClock_gv g0) as (Hs1 & Hvc1 & Hm1 & Ho1 & Hl1).
  set (g1 := tickClock g0) in *.
  match goal with |- context [logWriteWrapper ?m ?e Priority g1 w] =>
    pose proof (logWriteWrapper_gv m e Priority g1 w) as (Hs2 & Hvc2 & Hm2 & Hb2 & Hl2);
    destruct (logWriteWrapper m e Priority g1 w) as [[ok g2] w2] end.
  cbn [fst snd] in *.
  assert (Hs : same_settings gv g2).
  { apply (same_settings_trans _ g1); [|done].
    apply (same_settings_trans _ g0); [by repeat split|done]. }
  eexists _, _, _. split; [reflexivity|].
  split; [unfold mutex_Unlock; destruct Hs; destruct_and!; repeat split; cbn; congruence|].
  split; [done|].
  split; [unfold mutex_Unlock; cbn; rewrite Hvc2, Hvc1; by subst g0|].
  intros Hi. unfold mutex_Unlock, buffer_inv. cbn. apply Hb2.
  apply (buffer_inv_same g0); [done|done|]. by apply (buffer_inv_same gv).
Qed.

(** ** The three calls, priority below the threshold *)

Lemma LogLocalEvent_suppressed LogMessage Priority gv w :
  mutex gv = false → (Priority < priority gv)%Z →
  LogLocalEventWithPriority LogMessage Priority gv w = Returns true gv w.
Proof.
  intros Hm Hp. unfold LogLocalEventWithPriority.
  rewrite mutex_Lock_free by done. cbn [priority set_mutex].
  rewrite Z.geb_leb, (proj2 (Z.leb_gt _ _)) by done.
  unfold mutex_Unlock. destruct gv; cbn in *. by subst.
Qed.

Lemma PrepareSend_suppressed mesg buf Priority gv w :
  mutex gv = false → (Priority < priority gv)%Z →
  PrepareSendWithPriority mesg buf Priority gv w = Returns [] (set_mutex true gv) w.
Proof.
  intros Hm Hp. unfold PrepareSendWithPriority.
  rewrite mutex_Lock_free by done. cbn [priority set_mutex].
  by rewrite Z.geb_leb, (proj2 (Z.leb_gt _ _)).
Qed.

Lemma UnpackReceive_suppressed mesg buf unpack Priority gv w :
  mutex gv = false → (Priority < priority gv)%Z →
  UnpackReceiveWithPriority mesg buf unpack Priority gv w
  = Returns unpack (set_mutex true gv) w.
Proof.
  intros Hm Hp. unfold UnpackReceiveWithPriority.
  rewrite mutex_Lock_free by done. cbn [priority set_mutex].
  by rewrite Z.geb_leb, (proj2 (Z.leb_gt _ _)).
Qed.

(** ** Initialization *)

Lemma logThis_frame Message ProcessID VCString Priority gv w :
  let gv' := (logThis Message ProcessID VCString Priority gv w).1.2 in
  same_settings gv gv' ∧ currentVC gv' = currentVC gv ∧ mutex gv' = mutex gv
  ∧ buffer_inv gv'.
Proof.
  destruct (logThis_gv Message ProcessID VCString Priority gv w) as (s & -> & Hs).
  by repeat split.
Qed.

Lemma execution_banner_frame gv w :
  let gv' := (execution_banner gv w).1.2 in
  same_settings gv gv' ∧ currentVC gv' = currentVC gv ∧ mutex gv' = mutex gv
  ∧ buffer_inv gv'.
Proof.
  unfold execution_banner.
  match goal with |- context [logThis ?m ?p ?v ?P ?g w] =>
    pose proof (logThis_frame m p v P g w) as (Hs & Hvc & Hm & Hb) end.
  cbn zeta. repeat split; try done; try apply Hs.
Qed.

Lemma createLogFile_frame gv w :
  let gv' := (createLogFile gv w).1 in
  same_settings gv gv' ∧ currentVC gv' = currentVC gv ∧ mutex gv' = mutex gv
  ∧ buffer_inv gv'.
Proof.
  unfold createLogFile.
  set (g1 := match os_MkdirAll (logfile gv) w with
             | Some err => logger_Println err gv | None => gv end).
  assert (H1 : same_settings gv g1 ∧ currentVC g1 = currentVC gv ∧ mutex g1 = mutex gv)
    by (subst g1; destruct (os_MkdirAll _ _); by repeat split).
  destruct (os_Create (logfile g1) w) as [[file err] w1].
  set (g2 := match err with Some err => logger_Println err g1 | None => g1 end).
  assert (H2 : same_settings g1 g2 ∧ currentVC g2 = currentVC g1 ∧ mutex g2 = mutex g1)
    by (subst g2; destruct err; by repeat split).
  set (s3 := if appendLog g2 then _ else _).
  assert (H3 : same_settings g2 s3.1 ∧ currentVC s3.1 = currentVC g2 ∧ mutex s3.1 = mutex g2).
  { subst s3. destruct (appendLog g2); [|by repeat split].
    pose proof (execution_banner_frame g2 w1) as (? & ? & ? & _).
    by destruct (execution_banner g2 w1) as [[? ?] ?]. }
  destruct s3 as [g3 w3]. cbn [fst] in H3.
  pose proof (logThis_frame "Initialization Complete" (pid g3)
                (vclock.ReturnVCString (currentVC g3)) (priority g3) g3 w3)
    as (Hs4 & Hvc4 & Hm4 & Hb4).
  destruct (logThis _ _ _ _ g3 w3) as [[ok g4] w4]. cbn [fst snd] in *.
  destruct H1 as (? & ? & ?), H2 as (? & ? & ?), H3 as (? & ? & ?).
  assert (same_settings gv g4) by eauto using same_settings_trans.
  destruct ok; cbn; (split; [|split; [|split]]);
    try done; try congruence.
Qed.

Lemma prepareLogFile_frame gv w :
  let gv' := (prepareLogFile gv w).1 in
  same_settings gv gv' ∧ currentVC gv' = currentVC gv ∧ mutex gv' = mutex gv
  ∧ buffer_inv gv'.
Proof.
  unfold prepareLogFile. destruct (os_Stat (logfile gv) w); [|apply createLogFile_frame].
  destruct (appendLog gv); cbn [negb].
  - pose proof (execution_banner_frame gv w).
    by destruct (execution_banner gv w) as [[? ?] ?].
  - match goal with |- context [createLogFile ?g ?w'] =>
      pose proof (createLogFile_frame g w') as (Hs & Hvc & Hm & Hb) end.
    repeat split; try done; apply Hs.
Qed.

Lemma InitGoVector_gv processid logfilename config w :
  let gv := (InitGoVector processid logfilename config w).1 in
  pid gv = processid ∧ priority gv = Priority config
  ∧ buffered gv = Buffered config ∧ logging gv = LogToFile config
  ∧ currentVC gv = {[ processid := 1%N ]} ∧ mutex gv = false ∧ buffer_inv gv.
Proof.
  unfold InitGoVector.
  destruct (match EncodingStrategy config, DecodingStrategy config with
            | Some enc, Some dec => (enc, dec)
            | _, _ => (DefaultEncoder, DefaultDecoder) end) as [encoder decoder].
  match goal with |- context [prepareLogFile ?g w] =>
    pose proof (prepareLogFile_frame g w) as (Hs & Hvc & Hm & Hb) end.
  cbn zeta. unfold same_settings in Hs. cbn in Hs, Hvc, Hm.
  destruct_and!. repeat split; try done.
Qed.

Lemma InitGoVector_default_strategies processid logfilename config w :
  EncodingStrategy config = None ∨ DecodingStrategy config = None →
  let gv := (InitGoVector processid logfilename config w).1 in
  encodingStrategy gv = DefaultEncoder ∧ decodingStrategy gv = DefaultDecoder.
Proof.
  intros Hnone. unfold InitGoVector.
  assert (match EncodingStrategy config, DecodingStrategy config with
          | Some enc, Some dec => (enc, dec)
          | _, _ => (DefaultEncoder, DefaultDecoder) end
          = (DefaultEncoder, DefaultDecoder)) as ->.
  { destruct Hnone as [-> | ->]; [done|]. by destruct (EncodingStrategy config). }
  match goal with |- context [prepareLogFile ?g w] =>
    pose proof (prepareLogFile_frame g w) as (Hs & _) end.
  cbn zeta. unfold same_settings in Hs. cbn in Hs. by destruct_and!.
Qed.

(** ** Every logger a host can hold keeps the buffer invariant *)

Lemma run_call_held c gv w : mutex gv = true → run_call c gv w = Blocks.
Proof.
  intros Hm. destruct c; cbn;
    unfold LogLocalEventWithPriority, PrepareSendWithPriority, UnpackReceiveWithPriority;
    by rewrite mutex_Lock_held.
Qed.

Lemma run_call_returns c gv w :
  mutex gv = false → ∃ r gv' w', run_call c gv w = Returns r gv' w'.
Proof.
  intros Hm. destruct c as [m P | m b P | m b u P]; cbn;
    destruct (Z.lt_ge_cases P (priority gv)) as [Hlt | Hge].
  - rewrite LogLocalEvent_suppressed by done. cbn. eauto.
  - destruct (LogLocalEvent_passes m P gv w Hm Hge) as (ok & gv' & w' & -> & _).
    cbn. eauto.
  - rewrite PrepareSend_suppressed by done. cbn. eauto.
  - destruct (encodingStrategy gv (outgoing_envelope gv b)) as [bytes err] eqn:He.
    destruct (PrepareSend_passes m b P gv w bytes err Hm Hge He) as (gv' & w' & -> & _).
    cbn. eauto.
  - rewrite UnpackReceive_suppressed by done. cbn. eauto.
  - destruct (decodingStrategy gv b (blank_envelope u)) as [e err] eqn:He.
    destruct (UnpackReceive_passes m b u P gv w e err Hm Hge He) as (gv' & w' & -> & _).
    cbn. eauto.
Qed.

Lemma run_call_buffer_inv c gv w r gv' w' :
  run_call c gv w = Returns r gv' w' → buffer_inv gv → buffer_inv gv'.
Proof.
  intros Hrun Hinv. destruct (mutex gv) eqn:Hm.
  { by rewrite run_call_held in Hrun. }
  destruct c as [m P | m b P | m b u P]; cbn in Hrun;
    destruct (Z.lt_ge_cases P (priority gv)) as [Hlt | Hge].
  - rewrite LogLocalEvent_suppressed in Hrun by done. cbn in Hrun. by simplify_eq.
  - destruct (LogLocalEvent_passes m P gv w Hm Hge) as (ok & g & w1 & Heq & _ & _ & _ & Hb).
    rewrite Heq in Hrun. cbn in Hrun. simplify_eq. auto.
  - rewrite PrepareSend_suppressed in Hrun by done. cbn in Hrun. by simplify_eq.
  - destruct (encodingStrategy gv (outgoing_envelope gv b)) as [bytes err] eqn:He.
    destruct (PrepareSend_passes m b P gv w bytes err Hm Hge He)
      as (g & w1 & Heq & _ & _ & _ & _ & Hb).
    rewrite Heq in Hrun. cbn in Hrun. simplify_eq. auto.
  - rewrite UnpackReceive_suppressed in Hrun by done. cbn in Hrun. by simplify_eq.
  - destruct (decodingStrategy gv b (blank_envelope u)) as [e err] eqn:He.
    destruct (UnpackReceive_passes m b u P gv w e err Hm Hge He)
      as (g & w1 & Heq & _ & _ & _ & _ & Hb).
    rewrite Heq in Hrun. cbn in Hrun. simplify_eq. auto.
Qed.

Lemma DisableBufferedWrites_output gv w :
  output (DisableBufferedWrites gv w).1 = EmptyString.
Proof.
  unfold DisableBufferedWrites. case_bool_decide as Ho.
  - pose proof (Flush_gv (set_buffered false gv) w) as HF.
    destruct (Flush _ w) as [[ok g] w1]. cbn in *. by subst g.
  - cbn. destruct (decide (output gv = EmptyString)) as [|Hne]; [done|].
    by destruct Ho.
Qed.

Lemma Reachable_buffer_inv gv : Reachable gv → buffer_inv gv.
Proof.
  induction 1 as [processid logfilename config w | c gv w r gv' w' _ IH Hrun
                 | gv _ _ | gv w _ _ | gv w _ _].
  - apply InitGoVector_gv.
  - by eapply run_call_buffer_inv.
  - by intros ?.
  - intros _. apply DisableBufferedWrites_output.
  - intros _. by rewrite Flush_gv.
Qed.

(** * The claims *)

(** C1, as the code has it.  A receive whose priority passes and whose
    decoding fails still returns: the call has no error result.  The
    decoder's error is printed on the diagnostic logger, the clock is
    ticked at the logger's own pid and merged with the clock map the
    decoder left in the envelope, and the lock is released. *)
Theorem receive_decode_failure_is_logged_and_merged
    (mesg : string) (buf : list byte) (unpack : payload) (Priority : LogPriority)
    (gv : GoLog) (w : World) (e : ClockPayload) (msg : error) :
  mutex gv = false → (priority gv ≤ Priority)%Z →
  decodingStrategy gv buf (blank_envelope unpack) = (e, Some msg) →
  ∃ gv' w',
    UnpackReceiveWithPriority mesg buf unpack Priority gv w = Returns (Payload e) gv' w'
    ∧ msg ∈ logger gv'
    ∧ mutex gv' = false
    ∧ currentVC gv' = vclock.Merge (vclock.Tick (currentVC gv) (pid gv)) (VcMap e).
Proof.
  intros Hm Hp Hdec.
  destruct (UnpackReceive_passes mesg buf unpack Priority gv w e (Some msg) Hm Hp Hdec)
    as (gv' & w' & Hret & _ & Hm' & Hvc & Hlog & _).
  exists gv', w'. repeat split; auto.
Qed.

(** Logger [P2] receives the empty byte string: the default decoder fails
    with [EOF] and the statement above applies. *)
Lemma receive_decode_failure_is_logged_and_merged_witness :
  mutex logger_P2 = false ∧ (priority logger_P2 ≤ INFO)%Z
  ∧ decodingStrategy logger_P2 [] (blank_envelope PNil)
    = (blank_envelope PNil, Some Msgpack.EOF)
  ∧ ∃ gv' w',
      UnpackReceiveWithPriority "recv" [] PNil INFO logger_P2 world_P2
      = Returns (Payload (blank_envelope PNil)) gv' w'
      ∧ Msgpack.EOF ∈ logger gv'
      ∧ mutex gv' = false
      ∧ currentVC gv'
        = vclock.Merge (vclock.Tick (currentVC logger_P2) (pid logger_P2))
            (VcMap (blank_envelope PNil)).
Proof.
  split; [vm_compute; reflexivity|].
  split; [vm_compute; discriminate|].
  split; [vm_compute; reflexivity|].
  apply (receive_decode_failure_is_logged_and_merged
           "recv" [] PNil INFO logger_P2 world_P2 (blank_envelope PNil) Msgpack.EOF);
    [vm_compute; reflexivity | vm_compute; discriminate | vm_compute; reflexivity].
Defined.

(** C1, as stated, fails: logger [P2], fresh from initialization with
    clock [{P2:1}], receives the empty byte string.  The default decoder
    fails with [EOF]; the call returns all the same and the clock is
    [{P2:2}]. *)
Lemma receive_decode_failure_ticks_clock :
  (decodingStrategy logger_P2 [] (blank_envelope PNil)).2 = Some Msgpack.EOF
  ∧ currentVC logger_P2 = {[ "P2" := 1%N ]}
  ∧ ∃ p gv' w',
      UnpackReceiveWithPriority "recv" [] PNil INFO logger_P2 world_P2 = Returns p gv' w'
      ∧ currentVC gv' = {[ "P2" := 2%N ]}
      ∧ currentVC gv' ≠ currentVC logger_P2.
Proof.
  split; [vm_compute; reflexivity|]. split; [vm_compute; reflexivity|].
  destruct (UnpackReceive_passes "recv" [] PNil INFO logger_P2 world_P2
              (blank_envelope PNil) (Some Msgpack.EOF))
    as (gv' & w' & Hret & _ & _ & Hvc & _);
    [vm_compute; reflexivity | vm_compute; discriminate | vm_compute; reflexivity |].
  exists (Payload (blank_envelope PNil)), gv', w'.
  split; [exact Hret|]. rewrite Hvc.
  split; [vm_compute; reflexivity|].
  intros Heq. apply (f_equal (λ m : gmap string N, m !! "P2")) in Heq.
  vm_compute in Heq. discriminate.
Qed.

(** C2, where the code departs from it.  Logger [P1] has threshold INFO.
    A send, or a receive, at priority DEBUG returns with the lock still
    held, and the next call on that logger blocks; the local event at
    DEBUG releases the lock, as all three are meant to. *)
Theorem suppressed_send_and_receive_keep_the_lock :
  (∃ gv', PrepareSendWithPriority "go" (PStr "hello") DEBUG logger_P1 world_P1
          = Returns [] gv' world_P1
          ∧ mutex gv' = true
          ∧ LogLocalEvent "next" gv' world_P1 = Blocks)
  ∧ (∃ gv', UnpackReceiveWithPriority "got" bytes_B PNil DEBUG logger_P2 world_P2
            = Returns PNil gv' world_P2
            ∧ mutex gv' = true
            ∧ LogLocalEvent "next" gv' world_P2 = Blocks)
  ∧ (∃ gv', LogLocalEventWithPriority "dbg" DEBUG logger_P1 world_P1
            = Returns true gv' world_P1
            ∧ mutex gv' = false).
Proof.
  assert (H1 : mutex logger_P1 = false) by (vm_compute; reflexivity).
  assert (H2 : mutex logger_P2 = false) by (vm_compute; reflexivity).
  assert (L1 : (DEBUG < priority logger_P1)%Z) by (vm_compute; reflexivity).
  assert (L2 : (DEBUG < priority logger_P2)%Z) by (vm_compute; reflexivity).
  split; [|split].
  - rewrite PrepareSend_suppressed by done. eexists. split; [reflexivity|].
    split; [reflexivity|]. unfold LogLocalEvent, LogLocalEventWithPriority.
    by rewrite mutex_Lock_held.
  - rewrite UnpackReceive_suppressed by done. eexists. split; [reflexivity|].
    split; [reflexivity|]. unfold LogLocalEvent, LogLocalEventWithPriority.
    by rewrite mutex_Lock_held.
  - rewrite LogLocalEvent_suppressed by done. eexists. split; [reflexivity|done].
Qed.

(** C3, as the code has it.  A send whose priority passes and whose
    payload the encoding strategy rejects returns the bytes the strategy
    handed back with its error.  The error is printed on the diagnostic
    logger; the tick, which comes before the encoding, stays: the clock is
    the one before the call ticked once at the logger's own pid. *)
Theorem send_encode_failure_is_logged_after_tick
    (mesg : string) (buf : payload) (Priority : LogPriority)
    (gv : GoLog) (w : World) (bytes : list byte) (msg : error) :
  mutex gv = false → (priority gv ≤ Priority)%Z →
  encodingStrategy gv (outgoing_envelope gv buf) = (bytes, Some msg) →
  ∃ gv' w',
    PrepareSendWithPriority mesg buf Priority gv w = Returns bytes gv' w'
    ∧ msg ∈ logger gv'
    ∧ mutex gv' = false
    ∧ currentVC gv' = vclock.Tick (currentVC gv) (pid gv).
Proof.
  intros Hm Hp Henc.
  destruct (PrepareSend_passes mesg buf Priority gv w bytes (Some msg) Hm Hp Henc)
    as (gv' & w' & Hret & _ & Hm' & Hvc & Hlog & _).
  exists gv', w'. repeat split; auto.
Qed.

(** Logger [P1] sends a channel: the default encoder has written the pid
    when it rejects the payload. *)
Lemma send_encode_failure_is_logged_after_tick_witness :
  mutex logger_P1 = false ∧ (priority logger_P1 ≤ INFO)%Z
  ∧ encodingStrategy logger_P1 (outgoing_envelope logger_P1 PChan)
    = (["162"; "P"; "1"]%byte, Some Codec.unsupported)
  ∧ ∃ gv' w',
      PrepareSendWithPriority "go" PChan INFO logger_P1 world_P1
      = Returns ["162"; "P"; "1"]%byte gv' w'
      ∧ Codec.unsupported ∈ logger gv'
      ∧ mutex gv' = false
      ∧ currentVC gv' = vclock.Tick (currentVC logger_P1) (pid logger_P1).
Proof.
  split; [vm_compute; reflexivity|].
  split; [vm_compute; discriminate|].
  split; [vm_compute; reflexivity|].
  apply (send_encode_failure_is_logged_after_tick
           "go" PChan INFO logger_P1 world_P1 ["162"; "P"; "1"]%byte Codec.unsupported);
    [vm_compute; reflexivity | vm_compute; discriminate | vm_compute; reflexivity].
Defined.

(** C3, as stated, fails: logger [P1], with clock [{P1:1}], sends a
    channel.  The default encoder rejects it; the call returns and the
    clock is [{P1:2}]. *)
Lemma send_encode_failure_ticks_clock :
  (encodingStrategy logger_P1 (outgoing_envelope logger_P1 PChan)).2
  = Some Codec.unsupported
  ∧ currentVC logger_P1 = {[ "P1" := 1%N ]}
  ∧ ∃ bytes gv' w',
      PrepareSendWithPriority "go" PChan INFO logger_P1 world_P1 = Returns bytes gv' w'
      ∧ currentVC gv' = {[ "P1" := 2%N ]}
      ∧ currentVC gv' ≠ currentVC logger_P1.
Proof.
  split; [vm_compute; reflexivity|]. split; [vm_compute; reflexivity|].
  destruct (PrepareSend_passes "go" PChan INFO logger_P1 world_P1
              ["162"; "P"; "1"]%byte (Some Codec.unsupported))
    as (gv' & w' & Hret & _ & _ & Hvc & _);
    [vm_compute; reflexivity | vm_compute; discriminate | vm_compute; reflexivity |].
  exists ["162"; "P"; "1"]%byte, gv', w'.
  split; [exact Hret|]. rewrite Hvc.
  split; [vm_compute; reflexivity|].
  intros Heq. apply (f_equal (λ m : gmap string N, m !! "P1")) in Heq.
  vm_compute in Heq. discriminate.
Qed.

(** C4, where the code departs from it.  The envelope
    [{P1, {P1:2}, "hello"}] is encoded without error, and its bytes hold
    exactly its three fields ([Decode_fields] reads them back).
    [DecodeMsgpack], after reading them, reads on for three more fields:
    the default decoder returns [EOF] instead of success, and the sender id
    it leaves is empty. *)
Theorem default_decoder_fails_on_encoded_envelope :
  DefaultEncoder envelope_B = (bytes_B, None)
  ∧ Decode_fields (blank_envelope PNil) bytes_B = (envelope_B, [], None)
  ∧ DefaultDecoder bytes_B (blank_envelope PNil)
    = ({| Pid := EmptyString; VcMap := VcMap envelope_B; Payload := Payload envelope_B |},
       Some Msgpack.EOF).
Proof. repeat split; vm_compute; reflexivity. Qed.

(** C5.  With the default codec on both sides, what a passing send
    returns is received by any logger whose priority lets it pass, and the
    receiver's clock is then at least the sender's snapshot at every key of
    the snapshot: the receiver ticks its own component and takes the
    maximum, key by key.  In particular a receiver [P2] with clock
    [{P2:1}] that receives the bytes of [{P1, {P1:2}, "hello"}] ends with
    [{P1:2, P2:2}]. *)
Theorem receive_dominates_sent_clock :
  (∀ (gvX gvY : GoLog) (wX wY : World) (mesgS mesgR : string)
     (buf unpack : payload) (PS PR : LogPriority),
     mutex gvX = false → (priority gvX ≤ PS)%Z →
     encodingStrategy gvX = DefaultEncoder →
     wire_ok (outgoing_envelope gvX buf) →
     mutex gvY = false → (priority gvY ≤ PR)%Z →
     decodingStrategy gvY = DefaultDecoder →
     ∃ bytes gvX' wX' gvY' wY',
       PrepareSendWithPriority mesgS buf PS gvX wX = Returns bytes gvX' wX'
       ∧ UnpackReceiveWithPriority mesgR bytes unpack PR gvY wY = Returns buf gvY' wY'
       ∧ ∀ k s, vclock.GetMap (currentVC gvX') !! k = Some s →
                ∃ m, currentVC gvY' !! k = Some m ∧ (s ≤ m)%N)
  ∧ (∀ (gvY : GoLog) (wY : World) (mesg : string) (unpack : payload),
       pid gvY = "P2" → currentVC gvY = {[ "P2" := 1%N ]} →
       mutex gvY = false → decodingStrategy gvY = DefaultDecoder →
       ∃ p gvY' wY',
         UnpackReceive mesg bytes_B unpack gvY wY = Returns p gvY' wY'
         ∧ currentVC gvY' = {[ "P1" := 2%N; "P2" := 2%N ]}).
Proof.
  split.
  - intros gvX gvY wX wY mesgS mesgR buf unpack PS PR HmX HpX HeX Hok HmY HpY HdY.
    destruct (Unmarshal_Marshal (outgoing_envelope gvX buf) (blank_envelope unpack) Hok)
      as [Henc Hdec].
    destruct (Marshal (outgoing_envelope gvX buf)) as [bytes err] eqn:HM.
    cbn [fst snd] in *. subst err.
    assert (HE : encodingStrategy gvX (outgoing_envelope gvX buf) = (bytes, None))
      by (rewrite HeX; exact HM).
    destruct (PrepareSend_passes mesgS buf PS gvX wX bytes None HmX HpX HE)
      as (gvX' & wX' & HretX & _ & _ & HvcX & _).
    assert (HD : decodingStrategy gvY bytes (blank_envelope unpack)
                 = ({| Pid := EmptyString; VcMap := VcMap (outgoing_envelope gvX buf);
                       Payload := buf |}, Some EOF))
      by (rewrite HdY; exact Hdec).
    destruct (UnpackReceive_passes mesgR bytes unpack PR gvY wY _ _ HmY HpY HD)
      as (gvY' & wY' & HretY & _ & _ & HvcY & _).
    exists bytes, gvX', wX', gvY', wY'. split; [exact HretX|]. split; [exact HretY|].
    intros k s Hk. rewrite HvcY. apply Merge_dominates.
    cbn [VcMap outgoing_envelope]. unfold vclock.GetMap in *. by rewrite <-HvcX.
  - intros gvY wY mesg unpack Hpid Hvc Hm Hd.
    assert (Hdec : decodingStrategy gvY bytes_B (blank_envelope unpack)
                   = ({| Pid := EmptyString; VcMap := VcMap envelope_B;
                         Payload := Payload envelope_B |}, Some Msgpack.EOF))
      by (rewrite Hd; vm_compute; reflexivity).
    destruct (UnpackReceive_passes mesg bytes_B unpack (priority gvY) gvY wY
                _ _ Hm (Z.le_refl _) Hdec)
      as (gvY' & wY' & Hret & _ & _ & HvcY & _).
    exists (PStr "hello"), gvY', wY'. split; [exact Hret|].
    rewrite HvcY, Hvc, Hpid. vm_compute. reflexivity.
Qed.

(** Scenarios B and C in a row: [P1] sends "hello", [P2] receives it. *)
Lemma receive_dominates_sent_clock_witness :
  mutex logger_P1 = false ∧ (priority logger_P1 ≤ INFO)%Z
  ∧ encodingStrategy logger_P1 = DefaultEncoder
  ∧ wire_ok (outgoing_envelope logger_P1 (PStr "hello"))
  ∧ mutex logger_P2 = false ∧ (priority logger_P2 ≤ INFO)%Z
  ∧ decodingStrategy logger_P2 = DefaultDecoder
  ∧ ∃ bytes gvX' wX' gvY' wY',
      PrepareSendWithPriority "go" (PStr "hello") INFO logger_P1 world_P1
      = Returns bytes gvX' wX'
      ∧ UnpackReceiveWithPriority "got" bytes PNil INFO logger_P2 world_P2
        = Returns (PStr "hello") gvY' wY'
      ∧ ∀ k s, vclock.GetMap (currentVC gvX') !! k = Some s →
               ∃ m, currentVC gvY' !! k = Some m ∧ (s ≤ m)%N.
Proof.
  assert (Hok : wire_ok (outgoing_envelope logger_P1 (PStr "hello"))).
  { assert (Hmap : VcMap (outgoing_envelope logger_P1 (PStr "hello"))
                   = {[ "P1" := 2%N ]}) by (vm_compute; reflexivity).
    unfold wire_ok. rewrite Hmap.
    split; [vm_compute; reflexivity|]. split; [vm_compute; reflexivity|].
    split; [vm_compute; reflexivity|].
    apply map_Forall_singleton. split; vm_compute; reflexivity. }
  assert (HE : encodingStrategy logger_P1 = DefaultEncoder)
    by (apply InitGoVector_default_strategies; left; reflexivity).
  assert (HD : decodingStrategy logger_P2 = DefaultDecoder)
    by (apply InitGoVector_default_strategies; left; reflexivity).
  split; [vm_compute; reflexivity|].
  split; [vm_compute; discriminate|].
  split; [exact HE|].
  split; [exact Hok|].
  split; [vm_compute; reflexivity|].
  split; [vm_compute; discriminate|].
  split; [exact HD|].
  apply (proj1 receive_dominates_sent_clock logger_P1 logger_P2 world_P1 world_P2
           "go" "got" (PStr "hello") PNil INFO INFO);
    [vm_compute; reflexivity | vm_compute; discriminate | exact HE
    | exact Hok
    | vm_compute; reflexivity | vm_compute; discriminate | exact HD].
Defined.



(** C7.  [InitGoVector] leaves the clock with exactly one entry, the
    process's own, at 1; a first [LogLocalEvent "start"] on logger [P1],
    at the logger's own priority (INFO for threshold INFO), makes it
    [{P1:2}]. *)
Theorem init_seeds_own_counter_at_one :
  (∀ (processid logfilename : string) (config : GoLogConfig) (w : World),
     currentVC (InitGoVector processid logfilename config w).1 = {[ processid := 1%N ]})
  ∧ (∀ (logfilename : string) (config : GoLogConfig) (w w1 : World),
       ∃ logSuccess gv' w',
         LogLocalEvent "start" (InitGoVector "P1" logfilename config w).1 w1
         = Returns logSuccess gv' w'
         ∧ currentVC gv' = {[ "P1" := 2%N ]})
  ∧ ∃ logSuccess gv' w',
      priority logger_P1 = INFO
      ∧ LogLocalEventWithPriority "start" INFO logger_P1 world_P1
        = Returns logSuccess gv' w'
      ∧ currentVC gv' = {[ "P1" := 2%N ]}.
Proof.
  split; [|split].
  - intros. apply InitGoVector_gv.
  - intros logfilename config w w1.
    destruct (InitGoVector_gv "P1" logfilename config w)
      as (Hpid & _ & _ & _ & Hvc & Hm & _).
    set (gv := (InitGoVector "P1" logfilename config w).1) in *.
    destruct (LogLocalEvent_passes "start" (priority gv) gv w1 Hm (Z.le_refl _))
      as (ok & gv' & w' & Hret & _ & _ & Hvc' & _).
    exists ok, gv', w'. split; [exact Hret|].
    rewrite Hvc', Hvc, Hpid. vm_compute. reflexivity.
  - destruct (InitGoVector_gv "P1" "p1" GetDefaultConfig world0)
      as (Hpid & Hprio & _ & _ & Hvc & Hm & _).
    fold logger_P1 in Hpid, Hprio, Hvc, Hm.
    assert (Hp : (priority logger_P1 ≤ INFO)%Z) by (rewrite Hprio; reflexivity).
    destruct (LogLocalEvent_passes "start" INFO logger_P1 world_P1 Hm Hp)
      as (ok & gv' & w' & Hret & _ & _ & Hvc' & _).
    exists ok, gv', w'. split; [exact Hprio|]. split; [exact Hret|].
    rewrite Hvc', Hvc, Hpid. vm_compute. reflexivity.
Qed.

(** C8, where the code departs from it.  A logging call whose priority is
    strictly below the threshold returns with the clock, the pending
    output, the diagnostic log, the settings and the world (log files and
    console) as they were.  Only the local event is a no-op on the logger:
    a send or a receive hands back a logger that differs from the one it
    was given, with the lock held, and every later logging call on it
    blocks. *)
Theorem suppressed_send_and_receive_change_the_logger
    (c : LogCall) (gv : GoLog) (w : World) :
  mutex gv = false → (call_priority c < priority gv)%Z →
  ∃ r gv',
    run_call c gv w = Returns r gv' w
    ∧ currentVC gv' = currentVC gv
    ∧ output gv' = output gv
    ∧ logger gv' = logger gv
    ∧ same_settings gv gv'
    ∧ match c with
      | CallLocalEvent _ _ => gv' = gv
      | CallSend _ _ _ | CallReceive _ _ _ _ =>
          gv' ≠ gv ∧ mutex gv' = true
          ∧ ∀ (c' : LogCall) (w' : World), run_call c' gv' w' = Blocks
      end.
Proof.
  intros Hm Hp.
  assert (Hne : set_mutex true gv ≠ gv).
  { intros Heq. apply (f_equal mutex) in Heq. cbn in Heq. congruence. }
  destruct c as [m P | m b P | m b u P]; cbn in Hp |- *.
  - rewrite LogLocalEvent_suppressed by done. cbn.
    eexists _, _. split; [reflexivity|]. by repeat split.
  - rewrite PrepareSend_suppressed by done. cbn.
    eexists _, _. split; [reflexivity|].
    do 4 (split; [done|]). split; [exact Hne|]. split; [reflexivity|].
    intros c' w'. by apply run_call_held.
  - rewrite UnpackReceive_suppressed by done. cbn.
    eexists _, _. split; [reflexivity|].
    do 4 (split; [done|]). split; [exact Hne|]. split; [reflexivity|].
    intros c' w'. by apply run_call_held.
Qed.

(** A send at DEBUG on logger [P1] and a receive at DEBUG on logger [P2],
    both with threshold INFO, and scenario D: a local event at DEBUG on a
    logger with threshold ERROR. *)
Lemma suppressed_send_and_receive_change_the_logger_witness :
  (mutex logger_P1 = false
   ∧ (call_priority (CallSend "go" (PStr "hello") DEBUG) < priority logger_P1)%Z
   ∧ ∃ r gv',
       run_call (CallSend "go" (PStr "hello") DEBUG) logger_P1 world_P1
       = Returns r gv' world_P1
       ∧ currentVC gv' = currentVC logger_P1
       ∧ output gv' = output logger_P1
       ∧ logger gv' = logger logger_P1
       ∧ same_settings logger_P1 gv'
       ∧ gv' ≠ logger_P1 ∧ mutex gv' = true
       ∧ ∀ (c' : LogCall) (w' : World), run_call c' gv' w' = Blocks)
  ∧ (mutex logger_P2 = false
     ∧ (call_priority (CallReceive "got" bytes_B PNil DEBUG) < priority logger_P2)%Z
     ∧ ∃ r gv',
         run_call (CallReceive "got" bytes_B PNil DEBUG) logger_P2 world_P2
         = Returns r gv' world_P2
         ∧ currentVC gv' = currentVC logger_P2
         ∧ output gv' = output logger_P2
         ∧ logger gv' = logger logger_P2
         ∧ same_settings logger_P2 gv'
         ∧ gv' ≠ logger_P2 ∧ mutex gv' = true
         ∧ ∀ (c' : LogCall) (w' : World), run_call c' gv' w' = Blocks)
  ∧ (mutex logger_P1_ERROR = false
     ∧ (call_priority (CallLocalEvent "debugging" DEBUG) < priority logger_P1_ERROR)%Z
     ∧ ∃ r gv',
         run_call (CallLocalEvent "debugging" DEBUG) logger_P1_ERROR world_P1
         = Returns r gv' world_P1
         ∧ currentVC gv' = currentVC logger_P1_ERROR
         ∧ output gv' = output logger_P1_ERROR
         ∧ logger gv' = logger logger_P1_ERROR
         ∧ same_settings logger_P1_ERROR gv'
         ∧ gv' = logger_P1_ERROR).
Proof.
  split; [|split].
  - split; [vm_compute; reflexivity|].
    split; [vm_compute; reflexivity|].
    apply (suppressed_send_and_receive_change_the_logger
             (CallSend "go" (PStr "hello") DEBUG) logger_P1 world_P1);
      vm_compute; reflexivity.
  - split; [vm_compute; reflexivity|].
    split; [vm_compute; reflexivity|].
    apply (suppressed_send_and_receive_change_the_logger
             (CallReceive "got" bytes_B PNil DEBUG) logger_P2 world_P2);
      vm_compute; reflexivity.
  - split; [vm_compute; reflexivity|].
    split; [vm_compute; reflexivity|].
    apply (suppressed_send_and_receive_change_the_logger
             (CallLocalEvent "debugging" DEBUG) logger_P1_ERROR world_P1);
      vm_compute; reflexivity.
Defined.

(** C9.  On every logger a host application can hold, a logging call made
    while the lock is free returns, and whenever a logging call returns
    with the logger in unbuffered mode the pending output is empty,
    whatever the file system did with the write. *)
Theorem unbuffered_output_empty_after_call (gv : GoLog) (c : LogCall) (w : World) :
  Reachable gv →
  (mutex gv = false → ∃ r gv' w', run_call c gv w = Returns r gv' w')
  ∧ (∀ r gv' w', run_call c gv w = Returns r gv' w' →
       buffered gv' = false → output gv' = EmptyString).
Proof.
  intros Hreach. split; [apply run_call_returns|].
  intros r gv' w' Hrun. apply (Reachable_buffer_inv gv').
  by eapply Reachable_call.
Qed.

(** A local event on a fresh logger while the disk takes no writes. *)
Lemma unbuffered_output_empty_after_call_witness :
  Reachable logger_P1
  ∧ (mutex logger_P1 = false →
     ∃ r gv' w',
       run_call (CallLocalEvent "start" INFO) logger_P1 (full_disk world_P1)
       = Returns r gv' w')
  ∧ (∀ r gv' w',
       run_call (CallLocalEvent "start" INFO) logger_P1 (full_disk world_P1)
       = Returns r gv' w' →
       buffered gv' = false → output gv' = EmptyString).
Proof.
  split; [apply Reachable_init|].
  apply (unbuffered_output_empty_after_call logger_P1
           (CallLocalEvent "start" INFO) (full_disk world_P1)).
  apply Reachable_init.
Defined.

(** C10.  [Flush] always leaves the pending output empty.  When the log
    file cannot be opened or the write fails, it returns false and the
    files are as before: the buffered records are gone without having
    been written. *)
Theorem Flush_discards_buffer (gv : GoLog) (w : World) :
  output (Flush gv w).1.2 = EmptyString
  ∧ ((os_OpenFile_append (logfile gv) w).1 = None ∨ can_write w = false →
     (Flush gv w).1.1 = false ∧ files (Flush gv w).2 = files w).
Proof.
  split; [by rewrite Flush_gv|].
  unfold Flush, os_OpenFile_append, file_WriteString.
  destruct (can_open w && bool_decide (is_Some (files w !! logfile gv)));
    destruct (can_write w); cbn; intros [?|?]; done.
Qed.

(** A buffered logger holding its initialization record, flushed while the
    disk takes no writes. *)
Lemma Flush_discards_buffer_witness :
  output logger_P1_buffered ≠ EmptyString
  ∧ can_write (full_disk world_P1) = false
  ∧ output (Flush logger_P1_buffered (full_disk world_P1)).1.2 = EmptyString
  ∧ (Flush logger_P1_buffered (full_disk world_P1)).1.1 = false
  ∧ files (Flush logger_P1_buffered (full_disk world_P1)).2 = files (full_disk world_P1).
Proof.
  split; [vm_compute; discriminate|].
  split; [reflexivity|].
  destruct (Flush_discards_buffer logger_P1_buffered (full_disk world_P1)) as [Ho Hf].
  split; [exact Ho|]. apply Hf. right. reflexivity.
Defined.

(** * Further properties of the code *)

(** ** The envelope codec on longer streams *)

Lemma Decode_fields_app (kvs : list (string * N)) (d e : ClockPayload)
    (rest : list byte) :
  wire_ok d → kvs ≡ₚ map_to_list (VcMap d) →
  Decode_fields e ((EncodeMsgpack_range kvs d).1 ++ rest) = (d, rest, None).
Proof.
  intros (Hp & Hs & Hsz & Hm) Hperm. unfold EncodeMsgpack_range.
  pose proof (Encode_supported _ Hs) as He.
  pose proof (Decode_Encode (Payload d)) as Hd.
  destruct (Encode (Payload d)) as [b2 e2]. cbn in He. subst e2. cbn [fst] in *.
  unfold Decode_fields. rewrite <-!app_assoc.
  rewrite DecodeString_EncodeString by done.
  rewrite Hd by done.
  rewrite DecodeMapLen_EncodeMapLen by done.
  rewrite Nat2N.id.
  replace (size (VcMap d)) with (length kvs)
    by (by rewrite Hperm, length_map_to_list).
  rewrite decode_entries_encode_entries by (by eapply Forall_entry_ok_range).
  rewrite (foldl_insert_range (VcMap d)) by done.
  by destruct d.
Qed.

Lemma DecodeMsgpack_app (kvs : list (string * N)) (d e : ClockPayload)
    (rest : list byte) :
  wire_ok d → kvs ≡ₚ map_to_list (VcMap d) →
  DecodeMsgpack e ((EncodeMsgpack_range kvs d).1 ++ rest)
  = let '(d', dec, err) :=
      Decode_fields (set_Payload (Payload d) (set_Pid (Pid d) e)) rest in
    (set_VcMap (VcMap d) d', dec, err).
Proof.
  intros (Hp & Hs & Hsz & Hm) Hperm. unfold EncodeMsgpack_range.
  pose proof (Encode_supported _ Hs) as He.
  pose proof (Decode_Encode (Payload d)) as Hd.
  destruct (Encode (Payload d)) as [b2 e2]. cbn in He. subst e2. cbn [fst] in *.
  unfold DecodeMsgpack. rewrite <-!app_assoc.
  rewrite DecodeString_EncodeString by done.
  rewrite Hd by done.
  rewrite DecodeMapLen_EncodeMapLen by done.
  rewrite Nat2N.id.
  replace (size (VcMap d)) with (length kvs)
    by (by rewrite Hperm, length_map_to_list).
  rewrite decode_entries_encode_entries by (by eapply Forall_entry_ok_range).
  rewrite (foldl_insert_range (VcMap d)) by done.
  done.
Qed.

Lemma wire_ok_envelope_B : wire_ok envelope_B.
Proof.
  unfold wire_ok, envelope_B. cbn [Pid VcMap Payload].
  split; [vm_compute; reflexivity|]. split; [vm_compute; reflexivity|].
  split; [vm_compute; reflexivity|].
  apply map_Forall_singleton. split; vm_compute; reflexivity.
Qed.

Lemma wire_ok_envelope_A : wire_ok envelope_A.
Proof.
  unfold wire_ok, envelope_A. cbn [Pid VcMap Payload].
  split; [vm_compute; reflexivity|]. split; [vm_compute; reflexivity|].
  split; [vm_compute; reflexivity|].
  apply map_Forall_insert_2; [split; vm_compute; reflexivity|].
  apply map_Forall_singleton. split; vm_compute; reflexivity.
Qed.

(** X1.  Whatever order the encoder's range loop visits the clock map in,
    [DecodeMsgpack] on the bytes of one envelope consumes them all, leaves
    the encoded payload and the encoded clock map in its target, and
    returns [EOF]: it never returns success on a single envelope. *)
Theorem DecodeMsgpack_single_envelope
    (kvs : list (string * N)) (d e : ClockPayload) :
  wire_ok d → kvs ≡ₚ map_to_list (VcMap d) →
  (EncodeMsgpack_range kvs d).2 = None
  ∧ ∃ e', DecodeMsgpack e (EncodeMsgpack_range kvs d).1 = (e', [], Some EOF)
          ∧ VcMap e' = VcMap d ∧ Payload e' = Payload d.
Proof.
  intros Hok Hperm. split; [by apply EncodeMsgpack_range_ok|].
  eexists. split; [by apply DecodeMsgpack_any_range|]. done.
Qed.

(** The clock map of [envelope_A] ranged over in the order P2, P1. *)
Lemma DecodeMsgpack_single_envelope_witness :
  wire_ok envelope_A
  ∧ [("P2", 7%N); ("P1", 1%N)] ≡ₚ map_to_list (VcMap envelope_A)
  ∧ (EncodeMsgpack_range [("P2", 7%N); ("P1", 1%N)] envelope_A).2 = None
  ∧ ∃ e', DecodeMsgpack (blank_envelope PNil)
            (EncodeMsgpack_range [("P2", 7%N); ("P1", 1%N)] envelope_A).1
          = (e', [], Some EOF)
          ∧ VcMap e' = VcMap envelope_A ∧ Payload e' = Payload envelope_A.
Proof.
  assert (Hperm : [("P2", 7%N); ("P1", 1%N)] ≡ₚ map_to_list (VcMap envelope_A)).
  { replace (map_to_list (VcMap envelope_A)) with [("P1", 1%N); ("P2", 7%N)]
      by (vm_compute; reflexivity).
    apply Permutation_swap. }
  split; [exact wire_ok_envelope_A|]. split; [exact Hperm|].
  apply (DecodeMsgpack_single_envelope [("P2", 7%N); ("P1", 1%N)] envelope_A
           (blank_envelope PNil) wire_ok_envelope_A Hperm).
Defined.

(** X2.  On a stream of two envelopes [DecodeMsgpack] does return
    success: it reads the first, reads on through the second, and leaves
    the sender id and payload of the second with the clock map of the
    first. *)
Theorem DecodeMsgpack_two_envelopes (d1 d2 e : ClockPayload) :
  wire_ok d1 → wire_ok d2 →
  DecodeMsgpack e ((EncodeMsgpack d1).1 ++ (EncodeMsgpack d2).1)
  = ({| Pid := Pid d2; VcMap := VcMap d1; Payload := Payload d2 |}, [], None).
Proof.
  intros H1 H2. unfold EncodeMsgpack.
  rewrite DecodeMsgpack_app by done.
  rewrite <-(app_nil_r (EncodeMsgpack_range _ d2).1).
  rewrite Decode_fields_app by done. done.
Qed.

Lemma DecodeMsgpack_two_envelopes_witness :
  wire_ok envelope_B ∧ wire_ok envelope_A
  ∧ DecodeMsgpack (blank_envelope PNil)
      ((EncodeMsgpack envelope_B).1 ++ (EncodeMsgpack envelope_A).1)
    = ({| Pid := Pid envelope_A; VcMap := VcMap envelope_B;
          Payload := Payload envelope_A |}, [], None).
Proof.
  split; [exact wire_ok_envelope_B|]. split; [exact wire_ok_envelope_A|].
  apply (DecodeMsgpack_two_envelopes envelope_B envelope_A (blank_envelope PNil)
           wire_ok_envelope_B wire_ok_envelope_A).
Defined.

(** ** What [Flush], [logThis] and [logWriteWrapper] do, case by case *)

Lemma string_app_nil_r (s : string) : s +:+ EmptyString = s.
Proof.
  induction s as [|a s IH]; [done|].
  change (String a (s +:+ EmptyString) = String a s). by rewrite IH.
Qed.

Lemma string_app_nil_inv (s t : string) : s +:+ t = EmptyString → t = EmptyString.
Proof. by destruct s. Qed.

Lemma log_record_nonempty ts now p v m : log_record ts now p v m ≠ EmptyString.
Proof. unfold log_record. intros H. by apply string_app_nil_inv in H. Qed.

Lemma writable_dec (name : string) (w : World) : writable name w ∨ ¬ writable name w.
Proof.
  unfold writable. destruct (can_open w), (can_write w), (files w !! name);
    first [left; by eauto | right; intros (? & ? & ?); by (done || eapply is_Some_None)].
Qed.

Lemma Flush_writable gv w :
  writable (logfile gv) w →
  Flush gv w = (true, set_output EmptyString gv, append_file (logfile gv) (output gv) w).
Proof.
  intros (Ho & Hw & Hf). unfold Flush, os_OpenFile_append, file_WriteString.
  rewrite Ho, Hw, bool_decide_eq_true_2 by done. done.
Qed.

Lemma Flush_not_writable gv w :
  ¬ writable (logfile gv) w → Flush gv w = (false, set_output EmptyString gv, w).
Proof.
  intros Hnw. unfold Flush, os_OpenFile_append, file_WriteString.
  destruct (can_open w) eqn:Ho; cbn [andb]; [|done].
  case_bool_decide as Hf; [|done].
  destruct (can_write w) eqn:Hw; [|done].
  destruct Hnw. by repeat split.
Qed.

Lemma logThis_eq Message ProcessID VCString Priority gv w :
  logThis Message ProcessID VCString Priority gv w
  = let gv1 := set_output (output gv +:+ log_record (usetimestamps gv) (unixnano w)
                                           ProcessID VCString Message) gv in
    let '(complete, gv2, w1) :=
      if negb (buffered gv) then Flush gv1 w else (true, gv1, w) in
    (complete, gv2, echo gv Message Priority w1).
Proof.
  unfold logThis, log_record, echo. cbn zeta.
  destruct (buffered gv) eqn:Hb; cbn [negb set_output buffered].
  - rewrite Hb. done.
  - rewrite Hb. cbn [negb].
    match goal with |- context [Flush ?g w] =>
      pose proof (Flush_gv g w) as HF; destruct (Flush g w) as [[ok g'] w'] end.
    cbn in HF. subst g'. done.
Qed.

Lemma logWriteWrapper_off logMessage errorMessage Priority gv w :
  logging gv = false →
  logWriteWrapper logMessage errorMessage Priority gv w = (false, gv, w).
Proof. unfold logWriteWrapper. by intros ->. Qed.

Lemma logWriteWrapper_buffered logMessage errorMessage Priority gv w :
  logging gv = true → buffered gv = true →
  logWriteWrapper logMessage errorMessage Priority gv w
  = (true,
     set_output (output gv +:+ log_record (usetimestamps gv) (unixnano w) (pid gv)
                                 (vclock.ReturnVCString (currentVC gv)) logMessage) gv,
     echo gv logMessage Priority w).
Proof.
  intros Hl Hb. unfold logWriteWrapper. rewrite Hl, logThis_eq, Hb. done.
Qed.

Lemma logWriteWrapper_written logMessage errorMessage Priority gv w :
  logging gv = true → buffered gv = false → writable (logfile gv) w →
  logWriteWrapper logMessage errorMessage Priority gv w
  = (true, set_output EmptyString gv,
     echo gv logMessage Priority
       (append_file (logfile gv)
          (output gv +:+ log_record (usetimestamps gv) (unixnano w) (pid gv)
                           (vclock.ReturnVCString (currentVC gv)) logMessage) w)).
Proof.
  intros Hl Hb Hw. unfold logWriteWrapper. rewrite Hl, logThis_eq, Hb.
  cbn [negb]. cbn zeta. rewrite Flush_writable by done. done.
Qed.

Lemma logWriteWrapper_failed logMessage errorMessage Priority gv w :
  logging gv = true → buffered gv = false → ¬ writable (logfile gv) w →
  logWriteWrapper logMessage errorMessage Priority gv w
  = (false, logger_Println errorMessage (set_output EmptyString gv),
     echo gv logMessage Priority w).
Proof.
  intros Hl Hb Hw. unfold logWriteWrapper. rewrite Hl, logThis_eq, Hb.
  cbn [negb]. cbn zeta. rewrite Flush_not_writable by done. done.
Qed.


(** ** What a logging call leaves alone in the world *)

Lemma world_frame_refl gv w : world_frame gv w w.
Proof. by repeat split. Qed.

Lemma world_frame_settings gv g w w' :
  same_settings gv g → world_frame g w w' → world_frame gv w w'.
Proof.
  unfold same_settings, world_frame.
  intros (_ & Hp & Hl & Hb & _ & _ & _ & Hf & _) (F1 & F2 & F3 & F4).
  split; [|split; [|split]]; [| | |exact F4].
  - intros name Hn. apply F1. congruence.
  - intros [? | ?]; apply F2; [left | right]; congruence.
  - intros [? | ?]; apply F3; [left | right]; congruence.
Qed.

Lemma echo_files gv m P w : files (echo gv m P w) = files w.
Proof. unfold echo. by destruct (printonscreen gv). Qed.

Lemma echo_frame gv m P w w0 :
  world_frame gv w w0 → logging gv = true → world_frame gv w (echo gv m P w0).
Proof.
  unfold world_frame, echo. intros (F1 & F2 & F3 & F4) Hl.
  destruct (printonscreen gv) eqn:Hp; [|done].
  split; [exact F1|]. split; [exact F2|]. split; [|exact F4].
  intros [? | ?]; congruence.
Qed.

Lemma append_file_frame gv s w :
  buffered gv = false → logging gv = true →
  world_frame gv w (append_file (logfile gv) s w).
Proof.
  intros Hb Hl. unfold world_frame, append_file. repeat split; try done.
  - intros name Hn. cbn. by rewrite lookup_alter_ne.
  - intros [? | ?]; congruence.
Qed.

Lemma logWriteWrapper_world logMessage errorMessage Priority gv w :
  world_frame gv w (logWriteWrapper logMessage errorMessage Priority gv w).2.
Proof.
  destruct (logging gv) eqn:Hl.
  2: { rewrite logWriteWrapper_off by done. apply world_frame_refl. }
  destruct (buffered gv) eqn:Hb.
  { rewrite logWriteWrapper_buffered by done. cbn [snd].
    apply echo_frame; [apply world_frame_refl | done]. }
  destruct (writable_dec (logfile gv) w) as [Hw | Hw].
  - rewrite logWriteWrapper_written by done. cbn [snd].
    apply echo_frame; [by apply append_file_frame | done].
  - rewrite logWriteWrapper_failed by done. cbn [snd].
    apply echo_frame; [apply world_frame_refl | done].
Qed.

Lemma run_call_world_eq c gv w r gv' w' :
  run_call c gv w = Returns r gv' w' →
  w' = w ∨ ∃ m e P g, same_settings gv g ∧ w' = (logWriteWrapper m e P g w).2.
Proof.
  intros Hrun. destruct (mutex gv) eqn:Hm.
  { by rewrite run_call_held in Hrun. }
  assert (Hs : same_settings gv (tickClock (set_mutex true gv))).
  { destruct (tickClock_gv (set_mutex true gv)) as (Hs & _).
    eapply same_settings_trans; [|exact Hs]. by repeat split. }
  destruct c as [m P | m b P | m b u P]; cbn in Hrun.
  - unfold LogLocalEventWithPriority in Hrun.
    rewrite mutex_Lock_free in Hrun by done. cbn [priority set_mutex] in Hrun.
    destruct (P >=? priority gv)%Z.
    + match type of Hrun with context [logWriteWrapper ?a ?e P ?g w] =>
        right; exists a, e, P, g; split; [exact Hs|];
        destruct (logWriteWrapper a e P g w) as [[ok g2] w2] end.
      cbn in Hrun. by simplify_eq.
    + cbn in Hrun. left. by simplify_eq.
  - unfold PrepareSendWithPriority in Hrun.
    rewrite mutex_Lock_free in Hrun by done. cbn [priority set_mutex] in Hrun.
    destruct (P >=? priority gv)%Z.
    + match type of Hrun with context [logWriteWrapper ?a ?e P ?g w] =>
        right; exists a, e, P, g; split; [exact Hs|];
        destruct (logWriteWrapper a e P g w) as [[ok g2] w2] end.
      destruct (encodingStrategy g2 _) as [bytes err].
      cbn in Hrun. by simplify_eq.
    + cbn in Hrun. left. by simplify_eq.
  - unfold UnpackReceiveWithPriority in Hrun.
    rewrite mutex_Lock_free in Hrun by done.
    cbn [priority set_mutex decodingStrategy] in Hrun.
    destruct (P >=? priority gv)%Z.
    + destruct (decodingStrategy gv b _) as [e err].
      unfold mergeIncomingClock in Hrun.
      match type of Hrun with context [logWriteWrapper ?a ?e' P ?g w] =>
        right; exists a, e', P, g; split;
        [|destruct (logWriteWrapper a e' P g w) as [[ok g2] w2]] end.
      * match goal with |- same_settings _ (set_currentVC _ (tickClock ?g0)) =>
          destruct (tickClock_gv g0) as (Hs0 & _);
          apply (same_settings_trans _ g0);
            [destruct err; by repeat split|];
          apply (same_settings_trans _ (tickClock g0)); [exact Hs0 | by repeat split]
        end.
      * cbn in Hrun. by simplify_eq.
    + cbn in Hrun. left. by simplify_eq.
Qed.

Lemma run_call_world c gv w r gv' w' :
  run_call c gv w = Returns r gv' w' → world_frame gv w w'.
Proof.
  intros Hrun. destruct (run_call_world_eq c gv w r gv' w' Hrun)
    as [-> | (m & e & P & g & Hs & ->)]; [apply world_frame_refl|].
  eapply world_frame_settings; [exact Hs|]. apply logWriteWrapper_world.
Qed.

Lemma set_files_id (w : World) : set_files (files w) w = w.
Proof. by destruct w. Qed.

Lemma set_output_id (gv : GoLog) : set_output (output gv) gv = gv.
Proof. by destruct gv. Qed.

Lemma append_file_nil (name : string) (w : World) :
  append_file name EmptyString w = w.
Proof.
  unfold append_file. rewrite alter_id; [apply set_files_id|].
  intros c _. apply string_app_nil_r.
Qed.

Lemma append_file_lookup (name s c0 : string) (w : World) :
  files w !! name = Some c0 →
  files (append_file name s w) !! name = Some (c0 +:+ s).
Proof. intros H. unfold append_file. cbn. by rewrite lookup_alter_eq, H. Qed.

(** ** [Flush] *)

(** X3.  When the log file exists and can be opened and written, [Flush]
    returns true, appends the pending output to the end of the log file,
    leaves every other file as it was and empties the buffer. *)
Theorem Flush_appends_pending_output (gv : GoLog) (w : World) (c0 : string) :
  writable (logfile gv) w → files w !! logfile gv = Some c0 →
  (Flush gv w).1.1 = true
  ∧ output (Flush gv w).1.2 = EmptyString
  ∧ files (Flush gv w).2 !! logfile gv = Some (c0 +:+ output gv)
  ∧ ∀ name, name ≠ logfile gv → files (Flush gv w).2 !! name = files w !! name.
Proof.
  intros Hw Hc. rewrite Flush_writable by done. cbn [fst snd].
  split; [done|]. split; [done|]. split; [by apply append_file_lookup|].
  intros name Hn. unfold append_file. cbn. by rewrite lookup_alter_ne.
Qed.

(** The buffered logger, holding its initialization record, flushed into
    the log file that [InitGoVector] created empty. *)
Lemma Flush_appends_pending_output_witness :
  writable (logfile logger_P1_buffered)
    (InitGoVector "P1" "p1" (config_with true INFO) world0).2
  ∧ files (InitGoVector "P1" "p1" (config_with true INFO) world0).2
      !! logfile logger_P1_buffered = Some EmptyString
  ∧ (Flush logger_P1_buffered
       (InitGoVector "P1" "p1" (config_with true INFO) world0).2).1.1 = true
  ∧ output (Flush logger_P1_buffered
       (InitGoVector "P1" "p1" (config_with true INFO) world0).2).1.2 = EmptyString
  ∧ files (Flush logger_P1_buffered
       (InitGoVector "P1" "p1" (config_with true INFO) world0).2).2
      !! logfile logger_P1_buffered
    = Some (EmptyString +:+ output logger_P1_buffered)
  ∧ ∀ name, name ≠ logfile logger_P1_buffered →
      files (Flush logger_P1_buffered
        (InitGoVector "P1" "p1" (config_with true INFO) world0).2).2 !! name
      = files (InitGoVector "P1" "p1" (config_with true INFO) world0).2 !! name.
Proof.
  assert (Hc : files (InitGoVector "P1" "p1" (config_with true INFO) world0).2
                 !! logfile logger_P1_buffered = Some EmptyString)
    by (vm_compute; reflexivity).
  assert (Hw : writable (logfile logger_P1_buffered)
                 (InitGoVector "P1" "p1" (config_with true INFO) world0).2).
  { split; [vm_compute; reflexivity|]. split; [vm_compute; reflexivity|].
    rewrite Hc. by eexists. }
  split; [exact Hw|]. split; [exact Hc|].
  apply (Flush_appends_pending_output logger_P1_buffered _ EmptyString Hw Hc).
Defined.

(** X4.  On a logger a host can hold, [Flush] in unbuffered mode is a
    no-op, as its comment says: the logger and the world are left exactly
    as they were (it may still return false, when the log file cannot be
    opened). *)
Theorem Flush_unbuffered_is_noop (gv : GoLog) (w : World) :
  Reachable gv → buffered gv = false →
  (Flush gv w).1.2 = gv ∧ (Flush gv w).2 = w.
Proof.
  intros Hr Hb. pose proof (Reachable_buffer_inv gv Hr Hb) as Ho.
  destruct (writable_dec (logfile gv) w) as [Hw | Hw].
  - rewrite Flush_writable by done. cbn [fst snd]. rewrite Ho.
    split; [rewrite <-Ho at 1; apply set_output_id | apply append_file_nil].
  - rewrite Flush_not_writable by done. cbn [fst snd].
    split; [rewrite <-Ho at 1; apply set_output_id | done].
Qed.

Lemma Flush_unbuffered_is_noop_witness :
  Reachable logger_P1 ∧ buffered logger_P1 = false
  ∧ (Flush logger_P1 world_P1).1.2 = logger_P1 ∧ (Flush logger_P1 world_P1).2 = world_P1.
Proof.
  split; [apply Reachable_init|]. split; [vm_compute; reflexivity|].
  apply (Flush_unbuffered_is_noop logger_P1 world_P1);
    [apply Reachable_init | vm_compute; reflexivity].
Defined.

(** ** What the three logging calls never do *)

Lemma run_result_world c gv w : world_frame gv w (run_result c gv w).2.
Proof.
  unfold run_result. destruct (run_call c gv w) as [r gv' w'|] eqn:Hrun.
  - by eapply run_call_world.
  - apply world_frame_refl.
Qed.

(** X5.  In buffered mode, or with logging to file disabled, no logging
    call changes any file, whether the event passes the threshold or
    not. *)
Theorem buffered_call_writes_no_file (c : LogCall) (gv : GoLog) (w : World) :
  buffered gv = true ∨ logging gv = false →
  files (run_result c gv w).2 = files w.
Proof. apply (run_result_world c gv w). Qed.

(** A send on the buffered logger. *)
Lemma buffered_call_writes_no_file_witness :
  (buffered logger_P1_buffered = true ∨ logging logger_P1_buffered = false)
  ∧ files (run_result (CallSend "go" (PStr "hello") INFO) logger_P1_buffered
             world_P1_buffered).2
    = files world_P1_buffered.
Proof.
  assert (Hb : buffered logger_P1_buffered = true ∨ logging logger_P1_buffered = false)
    by (left; vm_compute; reflexivity).
  split; [exact Hb|].
  exact (buffered_call_writes_no_file (CallSend "go" (PStr "hello") INFO)
           logger_P1_buffered world_P1_buffered Hb).
Defined.

(** X6.  A logging call changes no file but the logger's own log file. *)
Theorem call_touches_only_its_log_file
    (c : LogCall) (gv : GoLog) (w : World) (name : string) :
  name ≠ logfile gv →
  files (run_result c gv w).2 !! name = files w !! name.
Proof. apply (run_result_world c gv w). Qed.

(** Logger [P2] logs an event in the world where [P1]'s log exists. *)
Lemma call_touches_only_its_log_file_witness :
  "p1-Log.txt" ≠ logfile logger_P2
  ∧ files (run_result (CallLocalEvent "start" INFO) logger_P2 world_P1).2 !! "p1-Log.txt"
    = files world_P1 !! "p1-Log.txt".
Proof.
  assert (Hn : "p1-Log.txt" ≠ logfile logger_P2) by (vm_compute; discriminate).
  split; [exact Hn|].
  exact (call_touches_only_its_log_file (CallLocalEvent "start" INFO)
           logger_P2 world_P1 "p1-Log.txt" Hn).
Defined.

(** X7.  Nothing is printed on the console by a logging call when
    [PrintOnScreen] is off, and nothing either when logging to file is
    off, even with [PrintOnScreen] on: the echo is part of writing the
    record. *)
Theorem silent_call_prints_nothing (c : LogCall) (gv : GoLog) (w : World) :
  printonscreen gv = false ∨ logging gv = false →
  stdout (run_result c gv w).2 = stdout w.
Proof. apply (run_result_world c gv w). Qed.

(** A logger with [PrintOnScreen] on and [LogToFile] off. *)
Lemma silent_call_prints_nothing_witness :
  printonscreen logger_P1_screen_only = true
  ∧ (printonscreen logger_P1_screen_only = false ∨ logging logger_P1_screen_only = false)
  ∧ stdout (run_result (CallLocalEvent "start" INFO) logger_P1_screen_only world_P1).2
    = stdout world_P1.
Proof.
  assert (Hb : printonscreen logger_P1_screen_only = false
               ∨ logging logger_P1_screen_only = false)
    by (right; vm_compute; reflexivity).
  split; [vm_compute; reflexivity|]. split; [exact Hb|].
  exact (silent_call_prints_nothing (CallLocalEvent "start" INFO)
           logger_P1_screen_only world_P1 Hb).
Defined.

(** ** A local event, end to end *)

Lemma LogLocalEvent_passes_eq LogMessage Priority gv w :
  mutex gv = false → (priority gv ≤ Priority)%Z →
  LogLocalEventWithPriority LogMessage Priority gv w
  = let r := logWriteWrapper ((getPrefixString Priority +:+ " - ") +:+ LogMessage)
               "Something went Wrong, Could not Log LocalEvent!" Priority
               (tickClock (set_mutex true gv)) w in
    Returns r.1.1 (mutex_Unlock r.1.2) r.2.
Proof.
  intros Hm Hp. unfold LogLocalEventWithPriority.
  rewrite mutex_Lock_free by done. cbn [priority set_mutex].
  rewrite (proj2 (Z.geb_le _ _)) by done. cbn zeta.
  by destruct (logWriteWrapper _ _ _ _ _) as [[ok g2] w2].
Qed.

(** The logger as [tickClock] leaves it inside a call. *)
Lemma tickClock_locked gv :
  let g := tickClock (set_mutex true gv) in
  same_settings gv g ∧ currentVC g = vclock.Tick (currentVC gv) (pid gv)
  ∧ output g = output gv ∧ pid g = pid gv.
Proof.
  destruct (tickClock_gv (set_mutex true gv)) as (Hs & Hvc & _ & Ho & _).
  cbn zeta. split; [|split; [exact Hvc|split; [exact Ho|apply Hs]]].
  eapply same_settings_trans; [|exact Hs]. by repeat split.
Qed.

(** X8.  A passing local event on an unbuffered logger whose log file can
    be written returns true and appends one block to the log file: what
    was pending, then the process id and the clock as just ticked on one
    line, and the priority prefix, [" - "] and the message on the next. *)
Theorem local_event_appends_record
    (LogMessage : string) (Priority : LogPriority) (gv : GoLog) (w : World)
    (c0 : string) :
  mutex gv = false → (priority gv ≤ Priority)%Z →
  logging gv = true → buffered gv = false →
  writable (logfile gv) w → files w !! logfile gv = Some c0 →
  ∃ gv' w',
    LogLocalEventWithPriority LogMessage Priority gv w = Returns true gv' w'
    ∧ files w' !! logfile gv
      = Some (c0 +:+ output gv
                 +:+ log_record (usetimestamps gv) (unixnano w) (pid gv)
                       (vclock.ReturnVCString (vclock.Tick (currentVC gv) (pid gv)))
                       ((getPrefixString Priority +:+ " - ") +:+ LogMessage))
    ∧ output gv' = EmptyString
    ∧ currentVC gv' = vclock.Tick (currentVC gv) (pid gv).
Proof.
  intros Hm Hp Hl Hb Hw Hc. rewrite LogLocalEvent_passes_eq by done.
  destruct (tickClock_locked gv) as (Hs & Hvc & Ho & Hpid).
  set (g := tickClock (set_mutex true gv)) in *.
  assert (Hlf : logfile g = logfile gv) by apply Hs.
  rewrite logWriteWrapper_written;
    [| by rewrite (proj1 (proj2 (proj2 Hs)))
     | by rewrite (proj1 (proj2 (proj2 (proj2 Hs))))
     | by rewrite Hlf ].
  cbn zeta. cbn [fst snd]. eexists _, _. split; [reflexivity|].
  split; [|split; [done|by cbn]].
  rewrite echo_files, Hlf, Ho, Hvc, Hpid.
  replace (usetimestamps g) with (usetimestamps gv) by (symmetry; apply Hs).
  by apply append_file_lookup.
Qed.

Lemma local_event_appends_record_witness :
  mutex logger_P1 = false ∧ (priority logger_P1 ≤ WARNING)%Z
  ∧ logging logger_P1 = true ∧ buffered logger_P1 = false
  ∧ writable (logfile logger_P1) world_P1
  ∧ files world_P1 !! logfile logger_P1
    = Some (log_record false 0 "P1" "{P1:1}" "Initialization Complete")
  ∧ ∃ gv' w',
      LogLocalEventWithPriority "low disk" WARNING logger_P1 world_P1
      = Returns true gv' w'
      ∧ files w' !! logfile logger_P1
        = Some (log_record false 0 "P1" "{P1:1}" "Initialization Complete"
                  +:+ output logger_P1
                  +:+ log_record (usetimestamps logger_P1) (unixnano world_P1)
                        (pid logger_P1)
                        (vclock.ReturnVCString
                           (vclock.Tick (currentVC logger_P1) (pid logger_P1)))
                        ((getPrefixString WARNING +:+ " - ") +:+ "low disk"))
      ∧ output gv' = EmptyString
      ∧ currentVC gv' = vclock.Tick (currentVC logger_P1) (pid logger_P1).
Proof.
  assert (Hc : files world_P1 !! logfile logger_P1
               = Some (log_record false 0 "P1" "{P1:1}" "Initialization Complete"))
    by (vm_compute; reflexivity).
  assert (Hw : writable (logfile logger_P1) world_P1).
  { split; [vm_compute; reflexivity|]. split; [vm_compute; reflexivity|].
    rewrite Hc. by eexists. }
  split; [vm_compute; reflexivity|]. split; [vm_compute; discriminate|].
  split; [vm_compute; reflexivity|]. split; [vm_compute; reflexivity|].
  split; [exact Hw|]. split; [exact Hc|].
  apply (local_event_appends_record "low disk" WARNING logger_P1 world_P1);
    [vm_compute; reflexivity | vm_compute; discriminate | vm_compute; reflexivity
    | vm_compute; reflexivity | exact Hw | exact Hc].
Defined.

(** X9.  When the log file cannot be opened or written, a passing local
    event on an unbuffered logger returns false and prints its complaint
    on the diagnostic logger; the tick has happened all the same, the
    record is dropped from the buffer and no file has changed. *)
Theorem local_event_reports_write_failure
    (LogMessage : string) (Priority : LogPriority) (gv : GoLog) (w : World) :
  mutex gv = false → (priority gv ≤ Priority)%Z →
  logging gv = true → buffered gv = false →
  ¬ writable (logfile gv) w →
  ∃ gv' w',
    LogLocalEventWithPriority LogMessage Priority gv w = Returns false gv' w'
    ∧ "Something went Wrong, Could not Log LocalEvent!" ∈ logger gv'
    ∧ currentVC gv' = vclock.Tick (currentVC gv) (pid gv)
    ∧ output gv' = EmptyString
    ∧ files w' = files w.
Proof.
  intros Hm Hp Hl Hb Hw. rewrite LogLocalEvent_passes_eq by done.
  destruct (tickClock_locked gv) as (Hs & Hvc & Ho & Hpid).
  set (g := tickClock (set_mutex true gv)) in *.
  assert (Hlf : logfile g = logfile gv) by apply Hs.
  rewrite logWriteWrapper_failed;
    [| by rewrite (proj1 (proj2 (proj2 Hs)))
     | by rewrite (proj1 (proj2 (proj2 (proj2 Hs))))
     | by rewrite Hlf ].
  cbn zeta. cbn [fst snd]. eexists _, _. split; [reflexivity|].
  split; [cbn; set_solver|]. split; [by cbn|]. split; [by cbn|].
  apply echo_files.
Qed.

Lemma local_event_reports_write_failure_witness :
  mutex logger_P1 = false ∧ (priority logger_P1 ≤ INFO)%Z
  ∧ logging logger_P1 = true ∧ buffered logger_P1 = false
  ∧ ¬ writable (logfile logger_P1) (full_disk world_P1)
  ∧ ∃ gv' w',
      LogLocalEventWithPriority "start" INFO logger_P1 (full_disk world_P1)
      = Returns false gv' w'
      ∧ "Something went Wrong, Could not Log LocalEvent!" ∈ logger gv'
      ∧ currentVC gv' = vclock.Tick (currentVC logger_P1) (pid logger_P1)
      ∧ output gv' = EmptyString
      ∧ files w' = files (full_disk world_P1).
Proof.
  assert (Hw : ¬ writable (logfile logger_P1) (full_disk world_P1))
    by (intros (_ & Hcw & _); discriminate Hcw).
  split; [vm_compute; reflexivity|]. split; [vm_compute; discriminate|].
  split; [vm_compute; reflexivity|]. split; [vm_compute; reflexivity|].
  split; [exact Hw|].
  apply (local_event_reports_write_failure "start" INFO logger_P1 (full_disk world_P1));
    [vm_compute; reflexivity | vm_compute; discriminate | vm_compute; reflexivity
    | vm_compute; reflexivity | exact Hw].
Defined.

(** X10.  With logging to file disabled, a passing local event returns
    false although nothing failed: the clock is ticked, and the pending
    output and the whole world, console included, are as before. *)
Theorem local_event_without_file_returns_false
    (LogMessage : string) (Priority : LogPriority) (gv : GoLog) (w : World) :
  mutex gv = false → (priority gv ≤ Priority)%Z → logging gv = false →
  ∃ gv',
    LogLocalEventWithPriority LogMessage Priority gv w = Returns false gv' w
    ∧ currentVC gv' = vclock.Tick (currentVC gv) (pid gv)
    ∧ output gv' = output gv
    ∧ mutex gv' = false.
Proof.
  intros Hm Hp Hl. rewrite LogLocalEvent_passes_eq by done.
  destruct (tickClock_locked gv) as (Hs & Hvc & Ho & Hpid).
  set (g := tickClock (set_mutex true gv)) in *.
  rewrite logWriteWrapper_off by (by rewrite (proj1 (proj2 (proj2 Hs)))).
  cbn zeta. cbn [fst snd]. eexists. split; [reflexivity|]. by cbn.
Qed.

Lemma local_event_without_file_returns_false_witness :
  mutex logger_P1_screen_only = false ∧ (priority logger_P1_screen_only ≤ INFO)%Z
  ∧ logging logger_P1_screen_only = false
  ∧ ∃ gv',
      LogLocalEventWithPriority "start" INFO logger_P1_screen_only world_P1
      = Returns false gv' world_P1
      ∧ currentVC gv'
        = vclock.Tick (currentVC logger_P1_screen_only) (pid logger_P1_screen_only)
      ∧ output gv' = output logger_P1_screen_only
      ∧ mutex gv' = false.
Proof.
  split; [vm_compute; reflexivity|]. split; [vm_compute; discriminate|].
  split; [vm_compute; reflexivity|].
  apply (local_event_without_file_returns_false "start" INFO
           logger_P1_screen_only world_P1);
    [vm_compute; reflexivity | vm_compute; discriminate | vm_compute; reflexivity].
Defined.

(** ** Buffered mode against immediate mode *)

Lemma echo_append_file gv m P name s w :
  echo gv m P (append_file name s w) = append_file name s (echo gv m P w).
Proof. unfold echo. by destruct (printonscreen gv). Qed.

Lemma writable_echo gv m P name w : writable name (echo gv m P w) ↔ writable name w.
Proof. unfold writable, echo. by destruct (printonscreen gv). Qed.

Lemma DisableBufferedWrites_eq gv w :
  output gv ≠ EmptyString →
  DisableBufferedWrites gv w
  = ((Flush (set_buffered false gv) w).1.2, (Flush (set_buffered false gv) w).2).
Proof.
  intros Ho. unfold DisableBufferedWrites. cbn [output set_buffered].
  rewrite bool_decide_eq_true_2 by done.
  by destruct (Flush _ w) as [[ok g] w1].
Qed.

(** X11.  Switching to buffered mode, logging a local event and switching
    back leaves the world exactly as logging the same event in unbuffered
    mode does, whether the write succeeds or not; the clock and the
    (empty) buffer agree too.  Buffering delays the write and changes
    nothing else. *)
Theorem buffered_event_then_disable_equals_direct
    (LogMessage : string) (Priority : LogPriority) (gv : GoLog) (w : World) :
  mutex gv = false → (priority gv ≤ Priority)%Z →
  logging gv = true → buffered gv = false → output gv = EmptyString →
  ∃ ok gv1 w1 gvb wb,
    LogLocalEventWithPriority LogMessage Priority gv w = Returns ok gv1 w1
    ∧ LogLocalEventWithPriority LogMessage Priority (EnableBufferedWrites gv) w
      = Returns true gvb wb
    ∧ files wb = files w
    ∧ (DisableBufferedWrites gvb wb).2 = w1
    ∧ currentVC (DisableBufferedWrites gvb wb).1 = currentVC gv1
    ∧ output (DisableBufferedWrites gvb wb).1 = output gv1
    ∧ buffered (DisableBufferedWrites gvb wb).1 = false.
Proof.
  intros Hm Hp Hl Hb Ho.
  rewrite !LogLocalEvent_passes_eq by done.
  destruct (tickClock_locked gv) as (Hs & Hvc & Hog & Hpid).
  destruct (tickClock_locked (EnableBufferedWrites gv)) as (Hs' & Hvc' & Hog' & Hpid').
  set (g := tickClock (set_mutex true gv)) in *.
  set (gb := tickClock (set_mutex true (EnableBufferedWrites gv))) in *.
  assert (Hlg : logging g = true) by (by rewrite (proj1 (proj2 (proj2 Hs)))).
  assert (Hbg : buffered g = false) by (by rewrite (proj1 (proj2 (proj2 (proj2 Hs))))).
  assert (Hlf : logfile g = logfile gv) by apply Hs.
  assert (Hts : usetimestamps g = usetimestamps gv) by apply Hs.
  assert (Hlgb : logging gb = true) by (by rewrite (proj1 (proj2 (proj2 Hs')))).
  assert (Hbgb : buffered gb = true)
    by (by rewrite (proj1 (proj2 (proj2 (proj2 Hs'))))).
  assert (Hlfb : logfile gb = logfile gv) by apply Hs'.
  assert (Htsb : usetimestamps gb = usetimestamps gv) by apply Hs'.
  assert (Hpsb : printonscreen gb = printonscreen g).
  { rewrite (proj1 (proj2 Hs')), (proj1 (proj2 Hs)). done. }
  cbn [EnableBufferedWrites set_buffered currentVC pid output] in Hvc', Hog', Hpid'.
  rewrite (logWriteWrapper_buffered _ _ _ gb) by done.
  cbn zeta. cbn [fst snd].
  set (rec := log_record _ _ (pid gb) _ _).
  set (msg := (getPrefixString Priority +:+ " - ") +:+ LogMessage) in *.
  assert (Hrec : rec = log_record (usetimestamps g) (unixnano w) (pid g)
                         (vclock.ReturnVCString (currentVC g)) msg).
  { unfold rec. by rewrite Htsb, Hts, Hpid', Hpid, Hvc', Hvc. }
  assert (Hob : output gb +:+ rec ≠ EmptyString).
  { intros H. apply string_app_nil_inv in H. by apply log_record_nonempty in H. }
  assert (Hecho : ∀ w0, echo gb msg Priority w0 = echo g msg Priority w0).
  { intros w0. unfold echo. by rewrite Hpsb. }
  destruct (writable_dec (logfile gv) w) as [Hw | Hw].
  - rewrite (logWriteWrapper_written _ _ _ g) by (by rewrite ?Hlf).
    cbn [fst snd]. eexists _, _, _, _, _.
    split; [reflexivity|]. split; [reflexivity|].
    split; [apply echo_files|].
    rewrite DisableBufferedWrites_eq by (by cbn).
    rewrite Flush_writable by (cbn; rewrite Hlfb; by apply writable_echo).
    cbn. rewrite Hlfb, Hlf, Hog', Hog, Hecho, Hrec, echo_append_file, Hvc', Hvc.
    done.
  - rewrite (logWriteWrapper_failed _ _ _ g) by (by rewrite ?Hlf).
    cbn [fst snd]. eexists _, _, _, _, _.
    split; [reflexivity|]. split; [reflexivity|].
    split; [apply echo_files|].
    rewrite DisableBufferedWrites_eq by (by cbn).
    rewrite Flush_not_writable
      by (cbn; rewrite Hlfb; by intros ?%writable_echo).
    cbn. rewrite Hecho, Hvc', Hvc. done.
Qed.

Lemma buffered_event_then_disable_equals_direct_witness :
  mutex logger_P1 = false ∧ (priority logger_P1 ≤ INFO)%Z
  ∧ logging logger_P1 = true ∧ buffered logger_P1 = false
  ∧ output logger_P1 = EmptyString
  ∧ ∃ ok gv1 w1 gvb wb,
      LogLocalEventWithPriority "start" INFO logger_P1 world_P1 = Returns ok gv1 w1
      ∧ LogLocalEventWithPriority "start" INFO (EnableBufferedWrites logger_P1) world_P1
        = Returns true gvb wb
      ∧ files wb = files world_P1
      ∧ (DisableBufferedWrites gvb wb).2 = w1
      ∧ currentVC (DisableBufferedWrites gvb wb).1 = currentVC gv1
      ∧ output (DisableBufferedWrites gvb wb).1 = output gv1
      ∧ buffered (DisableBufferedWrites gvb wb).1 = false.
Proof.
  split; [vm_compute; reflexivity|]. split; [vm_compute; discriminate|].
  split; [vm_compute; reflexivity|]. split; [vm_compute; reflexivity|].
  split; [vm_compute; reflexivity|].
  apply (buffered_event_then_disable_equals_direct "start" INFO logger_P1 world_P1);
    [vm_compute; reflexivity | vm_compute; discriminate | vm_compute; reflexivity
    | vm_compute; reflexivity | vm_compute; reflexivity].
Defined.

(** ** The clock across calls *)

Lemma run_call_clock c gv w r gv' w' :
  run_call c gv w = Returns r gv' w' →
  pid gv' = pid gv
  ∧ (currentVC gv' = currentVC gv
     ∨ ∃ other, currentVC gv'
                = vclock.Merge (vclock.Tick (currentVC gv) (pid gv)) other).
Proof.
  intros Hrun. destruct (mutex gv) eqn:Hm.
  { by rewrite run_call_held in Hrun. }
  destruct c as [m P | m b P | m b u P]; cbn in Hrun;
    destruct (Z.lt_ge_cases P (priority gv)) as [Hlt | Hge].
  - rewrite LogLocalEvent_suppressed in Hrun by done. cbn in Hrun. simplify_eq. auto.
  - destruct (LogLocalEvent_passes m P gv w Hm Hge)
      as (ok & g & w1 & Heq & Hs & _ & Hvc & _).
    rewrite Heq in Hrun. cbn in Hrun. simplify_eq. split; [apply Hs|].
    right. exists ∅. by rewrite Merge_empty.
  - rewrite PrepareSend_suppressed in Hrun by done. cbn in Hrun. simplify_eq. auto.
  - destruct (encodingStrategy gv (outgoing_envelope gv b)) as [bytes err] eqn:He.
    destruct (PrepareSend_passes m b P gv w bytes err Hm Hge He)
      as (g & w1 & Heq & Hs & _ & Hvc & _).
    rewrite Heq in Hrun. cbn in Hrun. simplify_eq. split; [apply Hs|].
    right. exists ∅. by rewrite Merge_empty.
  - rewrite UnpackReceive_suppressed in Hrun by done. cbn in Hrun. simplify_eq. auto.
  - destruct (decodingStrategy gv b (blank_envelope u)) as [e err] eqn:He.
    destruct (UnpackReceive_passes m b u P gv w e err Hm Hge He)
      as (g & w1 & Heq & Hs & _ & Hvc & _).
    rewrite Heq in Hrun. cbn in Hrun. simplify_eq. split; [apply Hs|].
    right. by exists (VcMap e).
Qed.

Lemma Merge_Tick_own (vc other : vclock.VClock) (p : string) :
  is_Some (vclock.Merge (vclock.Tick vc p) other !! p).
Proof. rewrite lookup_Merge, lookup_Tick_eq. by destruct (other !! p). Qed.

(** X12.  On every logger a host can hold, the logger's own process id
    has an entry in its clock: the complaint of [tickClock] about a
    missing id is never raised. *)
Theorem own_pid_always_in_clock (gv : GoLog) :
  Reachable gv →
  is_Some (currentVC gv !! pid gv)
  ∧ (vclock.FindTicks (currentVC gv) (pid gv)).2 = true
  ∧ logger (tickClock gv) = logger gv.
Proof.
  intros Hr.
  assert (H : is_Some (currentVC gv !! pid gv)).
  { induction Hr as [processid logfilename config w | c gv w r gv' w' _ IH Hrun
                    | gv _ IH | gv w _ IH | gv w _ IH].
    - destruct (InitGoVector_gv processid logfilename config w)
        as (-> & _ & _ & _ & -> & _). by rewrite lookup_singleton_eq.
    - destruct (run_call_clock c gv w r gv' w' Hrun) as [-> [-> | [other ->]]];
        [done | apply Merge_Tick_own].
    - done.
    - unfold DisableBufferedWrites. case_bool_decide; [|done].
      pose proof (Flush_gv (set_buffered false gv) w) as HF.
      destruct (Flush _ w) as [[ok g] w1]. cbn in *. by subst g.
    - by rewrite Flush_gv. }
  split; [exact H|]. destruct H as [n Hn].
  unfold tickClock, vclock.FindTicks. rewrite Hn. by destruct gv.
Qed.

Lemma own_pid_always_in_clock_witness :
  Reachable logger_P2
  ∧ is_Some (currentVC logger_P2 !! pid logger_P2)
  ∧ (vclock.FindTicks (currentVC logger_P2) (pid logger_P2)).2 = true
  ∧ logger (tickClock logger_P2) = logger logger_P2.
Proof.
  split; [apply Reachable_init|].
  apply (own_pid_always_in_clock logger_P2). apply Reachable_init.
Defined.

(** X13.  A passing receive never drops a key of the receiver's clock and
    never lowers the counter of another process, whatever the decoder
    handed over; a key of the incoming map is in the clock afterwards. *)
Theorem receive_never_lowers_other_counters
    (mesg : string) (buf : list byte) (unpack : payload) (Priority : LogPriority)
    (gv : GoLog) (w : World) :
  mutex gv = false → (priority gv ≤ Priority)%Z →
  ∃ p gv' w',
    UnpackReceiveWithPriority mesg buf unpack Priority gv w = Returns p gv' w'
    ∧ (∀ k n, k ≠ pid gv → currentVC gv !! k = Some n →
         ∃ m, currentVC gv' !! k = Some m ∧ (n ≤ m)%N)
    ∧ (∀ k, is_Some (currentVC gv !! k) → is_Some (currentVC gv' !! k))
    ∧ is_Some (currentVC gv' !! pid gv).
Proof.
  intros Hm Hp.
  destruct (decodingStrategy gv buf (blank_envelope unpack)) as [e err] eqn:He.
  destruct (UnpackReceive_passes mesg buf unpack Priority gv w e err Hm Hp He)
    as (gv' & w' & Heq & _ & _ & Hvc & _).
  exists (Payload e), gv', w'. split; [exact Heq|]. rewrite Hvc.
  split; [|split].
  - intros k n Hk Hn. rewrite lookup_Merge, lookup_Tick_ne, Hn by done.
    destruct (VcMap e !! k); eexists; (split; [reflexivity|]); cbn; lia.
  - intros k [n Hn]. rewrite lookup_Merge.
    destruct (VcMap e !! k); [done|].
    destruct (decide (pid gv = k)) as [<- | Hne].
    + by rewrite lookup_Tick_eq.
    + by rewrite lookup_Tick_ne, Hn.
  - apply Merge_Tick_own.
Qed.

Lemma receive_never_lowers_other_counters_witness :
  mutex logger_P2 = false ∧ (priority logger_P2 ≤ INFO)%Z
  ∧ ∃ p gv' w',
      UnpackReceiveWithPriority "got" bytes_B PNil INFO logger_P2 world_P2
      = Returns p gv' w'
      ∧ (∀ k n, k ≠ pid logger_P2 → currentVC logger_P2 !! k = Some n →
           ∃ m, currentVC gv' !! k = Some m ∧ (n ≤ m)%N)
      ∧ (∀ k, is_Some (currentVC logger_P2 !! k) → is_Some (currentVC gv' !! k))
      ∧ is_Some (currentVC gv' !! pid logger_P2).
Proof.
  split; [vm_compute; reflexivity|]. split; [vm_compute; discriminate|].
  apply (receive_never_lowers_other_counters "got" bytes_B PNil INFO
           logger_P2 world_P2);
    [vm_compute; reflexivity | vm_compute; discriminate].
Defined.

(** ** The lock *)

(** X14.  The calls without a priority argument use the logger's own
    threshold and so are never suppressed: with the lock free, each of
    [LogLocalEvent], [PrepareSend] and [UnpackReceive] returns with the
    lock released and the clock ticked. *)
Theorem default_priority_calls_always_pass (gv : GoLog) (w : World) :
  mutex gv = false →
  (∀ Message, ∃ ok gv' w',
     LogLocalEvent Message gv w = Returns ok gv' w'
     ∧ mutex gv' = false
     ∧ currentVC gv' = vclock.Tick (currentVC gv) (pid gv))
  ∧ (∀ mesg buf, ∃ bytes gv' w',
       PrepareSend mesg buf gv w = Returns bytes gv' w'
       ∧ mutex gv' = false
       ∧ currentVC gv' = vclock.Tick (currentVC gv) (pid gv))
  ∧ (∀ mesg buf unpack, ∃ p gv' w' other,
       UnpackReceive mesg buf unpack gv w = Returns p gv' w'
       ∧ mutex gv' = false
       ∧ currentVC gv' = vclock.Merge (vclock.Tick (currentVC gv) (pid gv)) other).
Proof.
  intros Hm. split; [|split].
  - intros Message.
    destruct (LogLocalEvent_passes Message (priority gv) gv w Hm (Z.le_refl _))
      as (ok & gv' & w' & Heq & _ & Hm' & Hvc & _).
    by exists ok, gv', w'.
  - intros mesg buf.
    destruct (encodingStrategy gv (outgoing_envelope gv buf)) as [bytes err] eqn:He.
    destruct (PrepareSend_passes mesg buf (priority gv) gv w bytes err Hm
                (Z.le_refl _) He)
      as (gv' & w' & Heq & _ & Hm' & Hvc & _).
    by exists bytes, gv', w'.
  - intros mesg buf unpack.
    destruct (decodingStrategy gv buf (blank_envelope unpack)) as [e err] eqn:He.
    destruct (UnpackReceive_passes mesg buf unpack (priority gv) gv w e err Hm
                (Z.le_refl _) He)
      as (gv' & w' & Heq & _ & Hm' & Hvc & _).
    by exists (Payload e), gv', w', (VcMap e).
Qed.

Lemma default_priority_calls_always_pass_witness :
  mutex logger_P1_ERROR = false
  ∧ (∀ Message, ∃ ok gv' w',
       LogLocalEvent Message logger_P1_ERROR world_P1 = Returns ok gv' w'
       ∧ mutex gv' = false
       ∧ currentVC gv'
         = vclock.Tick (currentVC logger_P1_ERROR) (pid logger_P1_ERROR))
  ∧ (∀ mesg buf, ∃ bytes gv' w',
       PrepareSend mesg buf logger_P1_ERROR world_P1 = Returns bytes gv' w'
       ∧ mutex gv' = false
       ∧ currentVC gv'
         = vclock.Tick (currentVC logger_P1_ERROR) (pid logger_P1_ERROR))
  ∧ (∀ mesg buf unpack, ∃ p gv' w' other,
       UnpackReceive mesg buf unpack logger_P1_ERROR world_P1 = Returns p gv' w'
       ∧ mutex gv' = false
       ∧ currentVC gv'
         = vclock.Merge
             (vclock.Tick (currentVC logger_P1_ERROR) (pid logger_P1_ERROR)) other).
Proof.
  split; [vm_compute; reflexivity|].
  apply (default_priority_calls_always_pass logger_P1_ERROR world_P1).
  vm_compute; reflexivity.
Defined.

(** X15.  After a send or a receive below the threshold has returned,
    every later logging call on that logger blocks, in whatever world it
    is made; the methods that take no lock ([Flush],
    [EnableBufferedWrites], [DisableBufferedWrites]) do not bring it
    back. *)
Theorem suppressed_send_blocks_later_calls
    (gv : GoLog) (w : World) (Priority : LogPriority) :
  mutex gv = false → (Priority < priority gv)%Z →
  (∀ mesg buf, ∃ gv',
     PrepareSendWithPriority mesg buf Priority gv w = Returns [] gv' w
     ∧ ∀ c w2, run_call c gv' w2 = Blocks
               ∧ run_call c (Flush gv' w2).1.2 w2 = Blocks
               ∧ run_call c (EnableBufferedWrites gv') w2 = Blocks
               ∧ run_call c (DisableBufferedWrites gv' w2).1 w2 = Blocks)
  ∧ (∀ mesg buf unpack, ∃ gv',
       UnpackReceiveWithPriority mesg buf unpack Priority gv w = Returns unpack gv' w
       ∧ ∀ c w2, run_call c gv' w2 = Blocks).
Proof.
  intros Hm Hp. split.
  - intros mesg buf. rewrite PrepareSend_suppressed by done.
    eexists. split; [reflexivity|]. intros c w2.
    split; [by apply run_call_held|].
    split; [apply run_call_held; by rewrite Flush_gv|].
    split; [by apply run_call_held|].
    apply run_call_held. unfold DisableBufferedWrites. case_bool_decide; [|done].
    pose proof (Flush_gv (set_buffered false (set_mutex true gv)) w2) as HF.
    destruct (Flush _ w2) as [[ok g] w3]. cbn in *. by subst g.
  - intros mesg buf unpack. rewrite UnpackReceive_suppressed by done.
    eexists. split; [reflexivity|]. intros c w2. by apply run_call_held.
Qed.

Lemma suppressed_send_blocks_later_calls_witness :
  mutex logger_P1 = false ∧ (DEBUG < priority logger_P1)%Z
  ∧ (∀ mesg buf, ∃ gv',
       PrepareSendWithPriority mesg buf DEBUG logger_P1 world_P1
       = Returns [] gv' world_P1
       ∧ ∀ c w2, run_call c gv' w2 = Blocks
                 ∧ run_call c (Flush gv' w2).1.2 w2 = Blocks
                 ∧ run_call c (EnableBufferedWrites gv') w2 = Blocks
                 ∧ run_call c (DisableBufferedWrites gv' w2).1 w2 = Blocks)
  ∧ (∀ mesg buf unpack, ∃ gv',
       UnpackReceiveWithPriority mesg buf unpack DEBUG logger_P1 world_P1
       = Returns unpack gv' world_P1
       ∧ ∀ c w2, run_call c gv' w2 = Blocks).
Proof.
  split; [vm_compute; reflexivity|]. split; [vm_compute; reflexivity|].
  apply (suppressed_send_blocks_later_calls logger_P1 world_P1 DEBUG);
    vm_compute; reflexivity.
Defined.

(** ** Initialization and the log file *)

Lemma createLogFile_fresh gv w :
  appendLog gv = false → buffered gv = false → output gv = EmptyString →
  can_create w = true → can_open w = true → can_write w = true →
  files (createLogFile gv w).2 !! logfile gv
  = Some (log_record (usetimestamps gv) (unixnano w) (pid gv)
            (vclock.ReturnVCString (currentVC gv)) "Initialization Complete").
Proof.
  intros Ha Hb Ho Hcc Hco Hcw. unfold createLogFile.
  set (g1 := match os_MkdirAll (logfile gv) w with
             | Some err => logger_Println err gv | None => gv end).
  assert (Hg1 : logfile g1 = logfile gv ∧ appendLog g1 = false ∧ buffered g1 = false
                ∧ output g1 = EmptyString ∧ usetimestamps g1 = usetimestamps gv
                ∧ pid g1 = pid gv ∧ currentVC g1 = currentVC gv
                ∧ printonscreen g1 = printonscreen gv)
    by (subst g1; by destruct (os_MkdirAll _ _)).
  destruct Hg1 as (Hlf & Ha1 & Hb1 & Ho1 & Hts & Hpid & Hvc & Hps).
  unfold os_Create. rewrite Hcc. cbn [logger_Println appendLog]. rewrite Ha1.
  rewrite logThis_eq, Hb1. cbn [negb]. cbn zeta.
  rewrite Flush_writable.
  2: { cbn. rewrite Hlf. split; [done|]. split; [done|].
       cbn. rewrite lookup_insert_eq. by eexists. }
  cbn [fst snd negb]. cbn [logger_Println]. rewrite echo_files.
  cbn [logfile set_output output]. rewrite Hlf.
  erewrite append_file_lookup; [|cbn; apply lookup_insert_eq].
  by rewrite Ho1, Hts, Hpid, Hvc.
Qed.

(** X16.  Without [AppendLog], in unbuffered mode and with a file system
    that lets the file be created and written, [InitGoVector] leaves a log
    file holding exactly one block, the initialization record with the
    clock as first ticked, whatever a file of that name held before. *)
Theorem init_writes_fresh_log
    (processid logfilename : string) (config : GoLogConfig) (w : World) :
  AppendLog config = false → Buffered config = false →
  can_create w = true → can_open w = true → can_write w = true →
  files (InitGoVector processid logfilename config w).2 !! (logfilename +:+ "-Log.txt")
  = Some (log_record (UseTimestamps config) (unixnano w) processid
            (vclock.ReturnVCString (vclock.Tick vclock.New processid))
            "Initialization Complete").
Proof.
  intros Ha Hb Hcc Hco Hcw. unfold InitGoVector.
  destruct (match EncodingStrategy config, DecodingStrategy config with
            | Some enc, Some dec => (enc, dec)
            | _, _ => (DefaultEncoder, DefaultDecoder) end) as [encoder decoder].
  cbn zeta. unfold prepareLogFile. cbn [logfile appendLog].
  rewrite Ha. cbn [negb].
  assert (Hrm : ∀ name, can_create (os_Remove name w) = true
                        ∧ can_open (os_Remove name w) = true
                        ∧ can_write (os_Remove name w) = true
                        ∧ unixnano (os_Remove name w) = unixnano w)
    by (intros name; unfold os_Remove; by destruct (can_remove w)).
  destruct (os_Stat _ w).
  - match goal with |- context [createLogFile ?g (os_Remove ?n w)] =>
      destruct (Hrm n) as (R1 & R2 & R3 & R4);
      etrans; [exact (createLogFile_fresh g (os_Remove n w) eq_refl Hb eq_refl R1 R2 R3)|]
    end.
    cbn [usetimestamps pid currentVC logger_Println]. by rewrite R4.
  - match goal with |- context [createLogFile ?g w] =>
      etrans; [exact (createLogFile_fresh g w eq_refl Hb eq_refl Hcc Hco Hcw)|]
    end.
    reflexivity.
Qed.

(** A second start of [P1] over the log its first run left. *)
Lemma init_writes_fresh_log_witness :
  AppendLog GetDefaultConfig = false ∧ Buffered GetDefaultConfig = false
  ∧ can_create world_P1 = true ∧ can_open world_P1 = true ∧ can_write world_P1 = true
  ∧ files (InitGoVector "P1" "p1" GetDefaultConfig world_P1).2 !! ("p1" +:+ "-Log.txt")
    = Some (log_record (UseTimestamps GetDefaultConfig) (unixnano world_P1) "P1"
              (vclock.ReturnVCString (vclock.Tick vclock.New "P1"))
              "Initialization Complete").
Proof.
  split; [reflexivity|]. split; [reflexivity|].
  split; [vm_compute; reflexivity|]. split; [vm_compute; reflexivity|].
  split; [vm_compute; reflexivity|].
  apply (init_writes_fresh_log "P1" "p1" GetDefaultConfig world_P1);
    [reflexivity | reflexivity | vm_compute; reflexivity | vm_compute; reflexivity
    | vm_compute; reflexivity].
Defined.

(** X17.  With [AppendLog], in unbuffered mode, over an existing log file
    that can be written, [InitGoVector] keeps what the file held and
    appends one block, the execution banner, with an empty process id and
    clock; the initialization record is not written in this case. *)
Theorem init_append_keeps_previous_log
    (processid logfilename : string) (config : GoLogConfig) (w : World) (c0 : string) :
  AppendLog config = true → Buffered config = false →
  files w !! (logfilename +:+ "-Log.txt") = Some c0 →
  can_open w = true → can_write w = true →
  files (InitGoVector processid logfilename config w).2 !! (logfilename +:+ "-Log.txt")
  = Some (c0 +:+ log_record (UseTimestamps config) (unixnano w) EmptyString EmptyString
                   ("=== Execution #" +:+ unixdate w +:+ "  ==="))
  ∧ logger (InitGoVector processid logfilename config w).1
    = ["Execution Number is   " +:+ unixdate w].
Proof.
  intros Ha Hb Hc Hco Hcw. unfold InitGoVector.
  destruct (match EncodingStrategy config, DecodingStrategy config with
            | Some enc, Some dec => (enc, dec)
            | _, _ => (DefaultEncoder, DefaultDecoder) end) as [encoder decoder].
  cbn zeta. unfold prepareLogFile, os_Stat. cbn [logfile appendLog].
  rewrite Ha, bool_decide_eq_true_2 by (rewrite Hc; by eexists). cbn [negb].
  unfold execution_banner. rewrite logThis_eq. cbn [buffered logger_Println].
  rewrite Hb. cbn [negb]. cbn zeta.
  rewrite Flush_writable.
  2: { cbn. split; [done|]. split; [done|]. rewrite Hc. by eexists. }
  cbn [fst snd]. rewrite echo_files. cbn [logfile set_output output].
  split; [|by cbn].
  erewrite append_file_lookup; [|exact Hc]. done.
Qed.

(** A second start of [P1], now with [AppendLog], over the log of its
    first run. *)
Lemma init_append_keeps_previous_log_witness :
  AppendLog config_append = true ∧ Buffered config_append = false
  ∧ files world_P1 !! ("p1" +:+ "-Log.txt")
    = Some (log_record false 0 "P1" "{P1:1}" "Initialization Complete")
  ∧ can_open world_P1 = true ∧ can_write world_P1 = true
  ∧ files (InitGoVector "P1" "p1" config_append world_P1).2 !! ("p1" +:+ "-Log.txt")
    = Some (log_record false 0 "P1" "{P1:1}" "Initialization Complete"
              +:+ log_record (UseTimestamps config_append) (unixnano world_P1)
                    EmptyString EmptyString
                    ("=== Execution #" +:+ unixdate world_P1 +:+ "  ==="))
  ∧ logger (InitGoVector "P1" "p1" config_append world_P1).1
    = ["Execution Number is   " +:+ unixdate world_P1].
Proof.
  split; [reflexivity|]. split; [reflexivity|].
  split; [vm_compute; reflexivity|].
  split; [vm_compute; reflexivity|]. split; [vm_compute; reflexivity|].
  apply (init_append_keeps_previous_log "P1" "p1" config_append world_P1);
    [reflexivity | reflexivity | vm_compute; reflexivity | vm_compute; reflexivity
    | vm_compute; reflexivity].
Defined.

(** X18.  [InitGoVector] installs the strategies of the configuration
    only when both are given; an encoder without a decoder, or a decoder
    without an encoder, is ignored and the default pair is used. *)
Theorem init_needs_both_strategies
    (processid logfilename : string) (config : GoLogConfig) (w : World) :
  (∀ enc dec, EncodingStrategy config = Some enc → DecodingStrategy config = Some dec →
     encodingStrategy (InitGoVector processid logfilename config w).1 = enc
     ∧ decodingStrategy (InitGoVector processid logfilename config w).1 = dec)
  ∧ (EncodingStrategy config = None ∨ DecodingStrategy config = None →
     encodingStrategy (InitGoVector processid logfilename config w).1 = DefaultEncoder
     ∧ decodingStrategy (InitGoVector processid logfilename config w).1 = DefaultDecoder).
Proof.
  split; [|apply InitGoVector_default_strategies].
  intros enc dec He Hd. unfold InitGoVector. rewrite He, Hd.
  match goal with |- context [prepareLogFile ?g w] =>
    pose proof (prepareLogFile_frame g w) as (Hs & _) end.
  cbn zeta. unfold same_settings in Hs. cbn in Hs. by destruct_and!.
Qed.

(** A configuration with an encoder of its own and no decoder. *)
Lemma init_needs_both_strategies_witness :
  (EncodingStrategy config_encoder_only = None
   ∨ DecodingStrategy config_encoder_only = None)
  ∧ EncodingStrategy config_encoder_only = Some (λ _, ([], None))
  ∧ encodingStrategy (InitGoVector "P1" "p1" config_encoder_only world0).1
    = DefaultEncoder
  ∧ decodingStrategy (InitGoVector "P1" "p1" config_encoder_only world0).1
    = DefaultDecoder.
Proof.
  split; [right; reflexivity|]. split; [reflexivity|].
  apply (proj2 (init_needs_both_strategies "P1" "p1" config_encoder_only world0)).
  right. reflexivity.
Defined.

(** ** [DisableBufferedWrites] *)

(** X19.  [DisableBufferedWrites] always leaves the logger unbuffered with
    an empty buffer.  With nothing pending it leaves the world alone (the
    log file is not even opened); with something pending and a log file
    that can be written, the pending output is appended to it. *)
Theorem DisableBufferedWrites_writes_pending (gv : GoLog) (w : World) :
  buffered (DisableBufferedWrites gv w).1 = false
  ∧ output (DisableBufferedWrites gv w).1 = EmptyString
  ∧ (output gv = EmptyString → (DisableBufferedWrites gv w).2 = w)
  ∧ (∀ c0, writable (logfile gv) w → files w !! logfile gv = Some c0 →
       files (DisableBufferedWrites gv w).2 !! logfile gv = Some (c0 +:+ output gv)).
Proof.
  split; [|split; [apply DisableBufferedWrites_output|split]].
  - unfold DisableBufferedWrites. case_bool_decide; [|done].
    pose proof (Flush_gv (set_buffered false gv) w) as HF.
    destruct (Flush _ w) as [[ok g] w1]. cbn in *. by subst g.
  - intros Ho. unfold DisableBufferedWrites. cbn [output set_buffered].
    by rewrite bool_decide_eq_false_2 by (by intros []).
  - intros c0 Hw Hc. destruct (decide (output gv = EmptyString)) as [Ho | Ho].
    + unfold DisableBufferedWrites. cbn [output set_buffered].
      rewrite bool_decide_eq_false_2 by (by intros []).
      cbn. by rewrite Ho, string_app_nil_r.
    + rewrite DisableBufferedWrites_eq by done. cbn [snd].
      rewrite Flush_writable by done. by apply append_file_lookup.
Qed.

Lemma DisableBufferedWrites_writes_pending_witness :
  writable (logfile logger_P1_buffered) world_P1_buffered
  ∧ files world_P1_buffered !! logfile logger_P1_buffered = Some EmptyString
  ∧ output logger_P1_buffered
    = log_record false 0 "P1" "{P1:1}" "Initialization Complete"
  ∧ files (DisableBufferedWrites logger_P1_buffered world_P1_buffered).2
      !! logfile logger_P1_buffered
    = Some (EmptyString +:+ output logger_P1_buffered).
Proof.
  assert (Hc : files world_P1_buffered !! logfile logger_P1_buffered = Some EmptyString)
    by (vm_compute; reflexivity).
  assert (Hw : writable (logfile logger_P1_buffered) world_P1_buffered).
  { split; [vm_compute; reflexivity|]. split; [vm_compute; reflexivity|].
    rewrite Hc. by eexists. }
  split; [exact Hw|]. split; [exact Hc|]. split; [vm_compute; reflexivity|].
  apply (DisableBufferedWrites_writes_pending logger_P1_buffered world_P1_buffered).
  - exact Hw.
  - exact Hc.
Defined.

(** ** The records of a send and of a receive *)

Lemma PrepareSend_passes_eq mesg buf Priority gv w :
  mutex gv = false → (priority gv ≤ Priority)%Z →
  PrepareSendWithPriority mesg buf Priority gv w
  = let r := logWriteWrapper mesg "Something went wrong, could not log prepare send"
               Priority (tickClock (set_mutex true gv)) w in
    let g := r.1.2 in
    let d := {| Pid := pid g; VcMap := vclock.GetMap (currentVC g); Payload := buf |} in
    Returns (encodingStrategy g d).1
      (mutex_Unlock (match (encodingStrategy g d).2 with
                     | Some e => logger_Println e g
                     | None => g
                     end))
      r.2.
Proof.
  intros Hm Hp. unfold PrepareSendWithPriority.
  rewrite mutex_Lock_free by done. cbn [priority set_mutex].
  rewrite (proj2 (Z.geb_le _ _)) by done. cbn zeta.
  destruct (logWriteWrapper _ _ _ _ _) as [[ok g2] w2]. cbn [fst snd].
  by destruct (encodingStrategy g2 _) as [bytes err].
Qed.

Lemma UnpackReceive_passes_eq mesg buf unpack Priority gv w :
  mutex gv = false → (priority gv ≤ Priority)%Z →
  UnpackReceiveWithPriority mesg buf unpack Priority gv w
  = let e := (decodingStrategy gv buf (blank_envelope unpack)).1 in
    let g0 := match (decodingStrategy gv buf (blank_envelope unpack)).2 with
              | Some msg => logger_Println msg (set_mutex true gv)
              | None => set_mutex true gv
              end in
    let g1 := tickClock g0 in
    let g2 := set_currentVC (vclock.Merge (currentVC g1) (VcMap e)) g1 in
    let r := logWriteWrapper mesg "Something went Wrong, Could not Log!" Priority g2 w in
    Returns (Payload e) (mutex_Unlock r.1.2) r.2.
Proof.
  intros Hm Hp. unfold UnpackReceiveWithPriority.
  rewrite mutex_Lock_free by done. cbn [priority set_mutex decodingStrategy].
  rewrite (proj2 (Z.geb_le _ _)) by done. fold (blank_envelope unpack).
  destruct (decodingStrategy gv buf (blank_envelope unpack)) as [e err].
  cbn [fst snd]. unfold mergeIncomingClock. cbn zeta.
  by destruct (logWriteWrapper _ _ _ _ _) as [[ok g3] w3].
Qed.

(** X20.  A passing send on a buffered logger appends one block to the
    pending output: the process id, the clock as ticked by this send (the
    same clock that travels in the envelope) and the message as given,
    without a priority prefix. *)
Theorem buffered_send_logs_ticked_clock
    (mesg : string) (buf : payload) (Priority : LogPriority) (gv : GoLog) (w : World) :
  mutex gv = false → (priority gv ≤ Priority)%Z →
  logging gv = true → buffered gv = true →
  ∃ gv' w',
    PrepareSendWithPriority mesg buf Priority gv w
    = Returns (encodingStrategy gv (outgoing_envelope gv buf)).1 gv' w'
    ∧ output gv'
      = output gv
          +:+ log_record (usetimestamps gv) (unixnano w) (pid gv)
                (vclock.ReturnVCString (VcMap (outgoing_envelope gv buf))) mesg.
Proof.
  intros Hm Hp Hl Hb. rewrite PrepareSend_passes_eq by done.
  destruct (tickClock_locked gv) as (Hs & Hvc & Ho & Hpid).
  set (g := tickClock (set_mutex true gv)) in *.
  rewrite logWriteWrapper_buffered;
    [| by rewrite (proj1 (proj2 (proj2 Hs)))
     | by rewrite (proj1 (proj2 (proj2 (proj2 Hs)))) ].
  cbn zeta. cbn [fst snd pid currentVC set_output encodingStrategy].
  replace (encodingStrategy g) with (encodingStrategy gv) by (symmetry; apply Hs).
  assert (Hd : {| Pid := pid g; VcMap := vclock.GetMap (currentVC g); Payload := buf |}
               = outgoing_envelope gv buf)
    by (unfold outgoing_envelope; by rewrite Hvc, Hpid).
  rewrite Hd. eexists _, _. split; [reflexivity|].
  replace (usetimestamps g) with (usetimestamps gv) by (symmetry; apply Hs).
  destruct (encodingStrategy gv (outgoing_envelope gv buf)).2;
    cbn; by rewrite Ho, Hpid, Hvc.
Qed.

Lemma buffered_send_logs_ticked_clock_witness :
  mutex logger_P1_buffered = false ∧ (priority logger_P1_buffered ≤ INFO)%Z
  ∧ logging logger_P1_buffered = true ∧ buffered logger_P1_buffered = true
  ∧ ∃ gv' w',
      PrepareSendWithPriority "go" (PStr "hello") INFO logger_P1_buffered
        world_P1_buffered
      = Returns (encodingStrategy logger_P1_buffered
                   (outgoing_envelope logger_P1_buffered (PStr "hello"))).1 gv' w'
      ∧ output gv'
        = output logger_P1_buffered
            +:+ log_record (usetimestamps logger_P1_buffered)
                  (unixnano world_P1_buffered) (pid logger_P1_buffered)
                  (vclock.ReturnVCString
                     (VcMap (outgoing_envelope logger_P1_buffered (PStr "hello"))))
                  "go".
Proof.
  split; [vm_compute; reflexivity|]. split; [vm_compute; discriminate|].
  split; [vm_compute; reflexivity|]. split; [vm_compute; reflexivity|].
  apply (buffered_send_logs_ticked_clock "go" (PStr "hello") INFO
           logger_P1_buffered world_P1_buffered);
    [vm_compute; reflexivity | vm_compute; discriminate | vm_compute; reflexivity
    | vm_compute; reflexivity].
Defined.

(** X21.  A passing receive on a buffered logger appends one block to the
    pending output, carrying the clock after the merge: own tick first,
    then the maximum with the clock map the decoder delivered. *)
Theorem buffered_receive_logs_merged_clock
    (mesg : string) (buf : list byte) (unpack : payload) (Priority : LogPriority)
    (gv : GoLog) (w : World) :
  mutex gv = false → (priority gv ≤ Priority)%Z →
  logging gv = true → buffered gv = true →
  ∃ gv' w',
    UnpackReceiveWithPriority mesg buf unpack Priority gv w
    = Returns (Payload (decodingStrategy gv buf (blank_envelope unpack)).1) gv' w'
    ∧ output gv'
      = output gv
          +:+ log_record (usetimestamps gv) (unixnano w) (pid gv)
                (vclock.ReturnVCString
                   (vclock.Merge (vclock.Tick (currentVC gv) (pid gv))
                      (VcMap (decodingStrategy gv buf (blank_envelope unpack)).1)))
                mesg
    ∧ files w' = files w.
Proof.
  intros Hm Hp Hl Hb. rewrite UnpackReceive_passes_eq by done.
  set (e := (decodingStrategy gv buf (blank_envelope unpack)).1).
  set (g0 := match (decodingStrategy gv buf (blank_envelope unpack)).2 with
             | Some msg => logger_Println msg (set_mutex true gv)
             | None => set_mutex true gv end).
  assert (H0 : same_settings gv g0 ∧ currentVC g0 = currentVC gv
               ∧ output g0 = output gv ∧ pid g0 = pid gv)
    by (subst g0; destruct (decodingStrategy gv buf _).2; by repeat split).
  destruct H0 as (Hs0 & Hvc0 & Ho0 & Hpid0).
  destruct (tickClock_gv g0) as (Hs1 & Hvc1 & _ & Ho1 & _).
  cbn zeta. set (g1 := tickClock g0) in *.
  set (g2 := set_currentVC (vclock.Merge (currentVC g1) (VcMap e)) g1).
  assert (Hs : same_settings gv g2).
  { apply (same_settings_trans _ g0); [done|].
    apply (same_settings_trans _ g1); [done|]. by repeat split. }
  rewrite logWriteWrapper_buffered;
    [| by rewrite (proj1 (proj2 (proj2 Hs)))
     | by rewrite (proj1 (proj2 (proj2 (proj2 Hs)))) ].
  cbn [fst snd]. eexists _, _. split; [reflexivity|].
  split; [|apply echo_files].
  replace (usetimestamps g2) with (usetimestamps gv) by (symmetry; apply Hs).
  replace (pid g2) with (pid gv) by (symmetry; apply Hs).
  cbn. by rewrite Ho1, Ho0, Hvc1, Hvc0, Hpid0.
Qed.

Lemma buffered_receive_logs_merged_clock_witness :
  mutex logger_P1_buffered = false ∧ (priority logger_P1_buffered ≤ INFO)%Z
  ∧ logging logger_P1_buffered = true ∧ buffered logger_P1_buffered = true
  ∧ ∃ gv' w',
      UnpackReceiveWithPriority "got" bytes_B PNil INFO logger_P1_buffered
        world_P1_buffered
      = Returns (Payload (decodingStrategy logger_P1_buffered bytes_B
                            (blank_envelope PNil)).1) gv' w'
      ∧ output gv'
        = output logger_P1_buffered
            +:+ log_record (usetimestamps logger_P1_buffered)
                  (unixnano world_P1_buffered) (pid logger_P1_buffered)
                  (vclock.ReturnVCString
                     (vclock.Merge
                        (vclock.Tick (currentVC logger_P1_buffered)
                           (pid logger_P1_buffered))
                        (VcMap (decodingStrategy logger_P1_buffered bytes_B
                                  (blank_envelope PNil)).1)))
                  "got"
      ∧ files w' = files world_P1_buffered.
Proof.
  split; [vm_compute; reflexivity|]. split; [vm_compute; discriminate|].
  split; [vm_compute; reflexivity|]. split; [vm_compute; reflexivity|].
  apply (buffered_receive_logs_merged_clock "got" bytes_B PNil INFO
           logger_P1_buffered world_P1_buffered);
    [vm_compute; reflexivity | vm_compute; discriminate | vm_compute; reflexivity
    | vm_compute; reflexivity].
Defined.

(** ** A run of events *)

Lemma run_result_tick c gv w :
  mutex gv = false → is_receive c = false → (priority gv ≤ call_priority c)%Z →
  same_settings gv (run_result c gv w).1
  ∧ mutex (run_result c gv w).1 = false
  ∧ currentVC (run_result c gv w).1 = vclock.Tick (currentVC gv) (pid gv).
Proof.
  intros Hm Hr Hp. unfold run_result.
  destruct c as [m P | m b P | m b u P]; [| |done]; cbn in Hp |- *.
  - destruct (LogLocalEvent_passes m P gv w Hm Hp)
      as (ok & g & w1 & -> & Hs & Hm' & Hvc & _). by cbn.
  - destruct (encodingStrategy gv (outgoing_envelope gv b)) as [bytes err] eqn:He.
    destruct (PrepareSend_passes m b P gv w bytes err Hm Hp He)
      as (g & w1 & -> & Hs & Hm' & Hvc & _). by cbn.
Qed.

(** X22.  Any run of passing local events and sends, one after the other
    on the same logger, ticks the logger's own entry once per call and
    does nothing else to the clock; every call returns, and the run ends
    with the lock free and the settings as they were. *)
Theorem run_of_events_ticks_once_each
    (cs : list LogCall) (gv : GoLog) (w : World) :
  mutex gv = false →
  Forall (λ c, is_receive c = false ∧ (priority gv ≤ call_priority c)%Z) cs →
  currentVC (run_calls cs gv w).1
  = Nat.iter (length cs) (λ vc, vclock.Tick vc (pid gv)) (currentVC gv)
  ∧ mutex (run_calls cs gv w).1 = false
  ∧ same_settings gv (run_calls cs gv w).1.
Proof.
  intros Hm Hcs. revert gv w Hm Hcs.
  induction cs as [|c cs IH]; intros gv w Hm Hcs.
  - cbn. split; [done|]. split; [done|]. apply same_settings_refl.
  - apply Forall_cons in Hcs as [[Hr Hp] Hcs].
    destruct (run_result_tick c gv w Hm Hr Hp) as (Hs & Hm1 & Hvc1).
    cbn [run_calls]. destruct (run_result c gv w) as [g1 w1]. cbn [fst] in *.
    assert (Hpid : pid g1 = pid gv) by apply Hs.
    assert (Hprio : priority g1 = priority gv) by apply Hs.
    assert (Hcs1 : Forall (λ c, is_receive c = false
                                ∧ (priority g1 ≤ call_priority c)%Z) cs)
      by (by rewrite Hprio).
    destruct (IH g1 w1 Hm1 Hcs1) as (Hvc & Hmx & Hss).
    split; [|split; [exact Hmx|by eapply same_settings_trans]].
    rewrite Hvc, Hvc1, Hpid. cbn [length]. by rewrite Nat.iter_succ_r.
Qed.

Lemma run_of_events_ticks_once_each_witness :
  mutex logger_P1 = false
  ∧ Forall (λ c, is_receive c = false ∧ (priority logger_P1 ≤ call_priority c)%Z)
      three_events
  ∧ currentVC (run_calls three_events logger_P1 world_P1).1
    = Nat.iter (length three_events) (λ vc, vclock.Tick vc (pid logger_P1))
        (currentVC logger_P1)
  ∧ mutex (run_calls three_events logger_P1 world_P1).1 = false
  ∧ same_settings logger_P1 (run_calls three_events logger_P1 world_P1).1.
Proof.
  assert (Hcs : Forall (λ c, is_receive c = false
                             ∧ (priority logger_P1 ≤ call_priority c)%Z)
                  three_events).
  { repeat constructor; vm_compute; discriminate. }
  split; [vm_compute; reflexivity|]. split; [exact Hcs|].
  apply (run_of_events_ticks_once_each three_events logger_P1 world_P1);
    [vm_compute; reflexivity | exact Hcs].
Defined.

(** X23.  With the clock of package [vclock], a run of passing local
    events and sends adds exactly its length to the logger's own counter
    (modulo [2^64]) and leaves the counter of every other process as it
    was. *)
Theorem run_of_events_counts_them
    (cs : list LogCall) (gv : GoLog) (w : World) (n : N) :
  mutex gv = false → currentVC gv !! pid gv = Some n → (n < 2 ^ 64)%N →
  Forall (λ c, is_receive c = false ∧ (priority gv ≤ call_priority c)%Z) cs →
  currentVC (run_calls cs gv w).1 !! pid gv
  = Some ((n + N.of_nat (length cs)) mod 2 ^ 64)%N
  ∧ (∀ k, k ≠ pid gv → currentVC (run_calls cs gv w).1 !! k = currentVC gv !! k)
  ∧ mutex (run_calls cs gv w).1 = false.
Proof.
  intros Hm Hn Hlt Hcs. revert gv w n Hm Hn Hlt Hcs.
  induction cs as [|c cs IH]; intros gv w n Hm Hn Hlt Hcs.
  - cbn. rewrite N.add_0_r, N.mod_small by done. done.
  - apply Forall_cons in Hcs as [[Hr Hp] Hcs].
    destruct (run_result_tick c gv w Hm Hr Hp) as (Hs & Hm1 & Hvc1).
    cbn [run_calls]. destruct (run_result c gv w) as [g1 w1]. cbn [fst] in *.
    assert (Hpid : pid g1 = pid gv) by apply Hs.
    assert (Hprio : priority g1 = priority gv) by apply Hs.
    assert (Hn1 : currentVC g1 !! pid g1 = Some (vclock.uint64 (n + 1))).
    { by rewrite Hvc1, Hpid, lookup_Tick_eq, Hn. }
    assert (Hlt1 : (vclock.uint64 (n + 1) < 2 ^ 64)%N)
      by (unfold vclock.uint64; by apply N.mod_upper_bound).
    assert (Hcs1 : Forall (λ c, is_receive c = false
                                ∧ (priority g1 ≤ call_priority c)%Z) cs)
      by (by rewrite Hprio).
    destruct (IH g1 w1 _ Hm1 Hn1 Hlt1 Hcs1) as (Hown & Hother & Hmx).
    rewrite Hpid in Hown, Hother.
    split; [|split; [|exact Hmx]].
    + rewrite Hown. f_equal. unfold vclock.uint64.
      rewrite N.Div0.add_mod_idemp_l. f_equal. cbn [length]. lia.
    + intros k Hk. rewrite Hother by done. rewrite Hvc1. by apply lookup_Tick_ne.
Qed.

(** Three events on the fresh logger [P1]: its counter goes from 1 to 4. *)
Lemma run_of_events_counts_them_witness :
  mutex logger_P1 = false ∧ currentVC logger_P1 !! pid logger_P1 = Some 1%N
  ∧ (1 < 2 ^ 64)%N
  ∧ Forall (λ c, is_receive c = false ∧ (priority logger_P1 ≤ call_priority c)%Z)
      three_events
  ∧ currentVC (run_calls three_events logger_P1 world_P1).1 !! pid logger_P1
    = Some ((1 + N.of_nat (length three_events)) mod 2 ^ 64)%N
  ∧ (∀ k, k ≠ pid logger_P1 →
       currentVC (run_calls three_events logger_P1 world_P1).1 !! k
       = currentVC logger_P1 !! k)
  ∧ mutex (run_calls three_events logger_P1 world_P1).1 = false.
Proof.
  assert (Hcs : Forall (λ c, is_receive c = false
                             ∧ (priority logger_P1 ≤ call_priority c)%Z)
                  three_events).
  { repeat constructor; vm_compute; discriminate. }
  split; [vm_compute; reflexivity|]. split; [vm_compute; reflexivity|].
  split; [reflexivity|]. split; [exact Hcs|].
  apply (run_of_events_counts_them three_events logger_P1 world_P1 1%N);
    [vm_compute; reflexivity | vm_compute; reflexivity | reflexivity | exact Hcs].
Defined.
